(** * A shallow embedding of the GitHub GraphQL client

    Source: [scripts/cliente_github.py] (with the constants it imports from
    [scripts/configuracao.py]).  The module has three parts, embedded here
    in the same order:

    - [TokenManager]: the circular rotation over the configured tokens;
    - [graphql_request]: one query with its bounded retry loop;
    - [fetch_top_repositories]: the pagination loop on top of it.

    Python [str] values are embedded as [string], each [ascii] standing
    for one code point in the range 0..255.  Python [int] values that the
    code computes with are [Z]; list lengths, list indices and loop
    counters that start at 0 and only grow are [nat].  Calls to [print]
    write to the console only and are left out. *)

From Stdlib Require Import ZArith List String Ascii Bool Arith Lia.
Import ListNotations.

Local Open Scope string_scope.
Local Open Scope list_scope.

(** ** Python string operations used by the client *)

(** [str.isspace] on one code point below 256: TAB..CR, FS..US, space,
    NEL (0x85) and NBSP (0xA0). *)
Definition isspace (c : ascii) : bool :=
  let n := nat_of_ascii c in
  (((9 <=? n) && (n <=? 13)) || ((28 <=? n) && (n <=? 32))
   || (n =? 133) || (n =? 160))%nat.

Fixpoint lstrip (s : string) : string :=
  match s with
  | EmptyString => EmptyString
  | String c t => if isspace c then lstrip t else s
  end.

Definition is_empty (s : string) : bool :=
  match s with EmptyString => true | String _ _ => false end.

Fixpoint rstrip (s : string) : string :=
  match s with
  | EmptyString => EmptyString
  | String c t =>
      let t' := rstrip t in
      if isspace c && is_empty t' then EmptyString else String c t'
  end.

(** [s.strip()] *)
Definition strip (s : string) : string := rstrip (lstrip s).

(** [str.lower] on one code point below 256: A..Z and the Latin-1 capitals
    0xC0..0xDE (the multiplication sign 0xD7 apart) move up by 32. *)
Definition lower_char (c : ascii) : ascii :=
  let n := nat_of_ascii c in
  if (((65 <=? n) && (n <=? 90))
      || ((192 <=? n) && (n <=? 222) && negb (n =? 215)))%nat
  then ascii_of_nat (n + 32) else c.

Fixpoint lower (s : string) : string :=
  match s with
  | EmptyString => EmptyString
  | String c t => String (lower_char c) (lower t)
  end.

(** [needle in haystack] on strings. *)
Fixpoint py_in (needle haystack : string) : bool :=
  prefix needle haystack
  || match haystack with
     | EmptyString => false
     | String _ t => py_in needle t
     end.

(** The test both rate-limit branches make on a text. *)
Definition mentions_rate_limit (text : string) : bool :=
  py_in "rate limit" (lower text).

(** ** Results and exceptions *)

(** The exceptions the module can end with.  The module raises
    [RuntimeError] in four places, told apart by their message; each place
    has its own constructor here, carrying what the message interpolates. *)
Inductive exception : Type :=
| NoTokens
    (* RuntimeError("Nenhum token informado. ...") *)
| GraphQLError (errors : string)
    (* RuntimeError(f"Erro GraphQL: {payload['errors']}") *)
| HttpFailure (status : Z) (body : string)
    (* RuntimeError(f"Falha na chamada GraphQL: HTTP {status} - {text}") *)
| AttemptsExhausted
    (* RuntimeError("Nao foi possivel concluir a chamada GraphQL ...") *)
| ZeroDivisionError
| IndexError
| KeyError (key : string)
| JSONDecodeError
| RequestException.

Inductive outcome (A : Type) : Type :=
| Return (a : A)
| Raise (e : exception).
Arguments Return {A} a.
Arguments Raise {A} e.

(** ** constants of [configuracao.py] *)

Definition GITHUB_GRAPHQL_URL : string := "https://api.github.com/graphql".

Definition REPOSITORY_SEARCH_QUERY : string :=
  "stars:>1 sort:stars-desc is:public".

Definition GRAPHQL_QUERY : string := "
query ($searchQuery: String!, $first: Int!, $after: String) {
  search(query: $searchQuery, type: REPOSITORY, first: $first, after: $after) {
    pageInfo {
      hasNextPage
      endCursor
    }
    nodes {
      ... on Repository {
        nameWithOwner
        url
        stargazerCount
        createdAt
        pushedAt
        primaryLanguage {
          name
        }
        pullRequests(states: MERGED, first: 1) {
          totalCount
        }
        releases(first: 1) {
          totalCount
        }
        totalIssues: issues(first: 1) {
          totalCount
        }
        closedIssues: issues(states: CLOSED, first: 1) {
          totalCount
        }
      }
    }
  }
}
".

(** ** The wire data *)

(** One node of the search result, with the fields [GRAPHQL_QUERY] asks. *)
Record repository : Type := {
  nameWithOwner : string;
  url : string;
  stargazerCount : Z;
  createdAt : string;
  pushedAt : string;
  primaryLanguage : option string;
  pullRequests : Z;
  releases : Z;
  totalIssues : Z;
  closedIssues : Z
}.

(** [pageInfo]; a missing [endCursor] is [None]. *)
Record page_info : Type := {
  hasNextPage : bool;
  endCursor : option string
}.

(** [data["search"]]: nodes may be [null]; [pageInfo] is read with [.get]
    and may be missing. *)
Record search_result : Type := {
  nodes : list (option repository);
  pageInfo : option page_info
}.

Record data : Type := { search : search_result }.

(** The JSON object of an HTTP 200 body.  The value under ["errors"] is
    kept as the text [str] makes of it: the code only ever takes [str] of it
    (for the rate-limit test and inside the error message). *)
Record payload : Type := {
  errors : option string;
  payload_data : option data
}.

(** What [graphql_request] reads of a response.  A rate-limit header that
    is present is an integer text, as the API sends it, and is kept as the
    integer [int] reads from it; [None] is the absent header.  [json] is
    what [response.json()] gives, [None] when the body is not JSON. *)
Record response : Type := {
  status_code : Z;
  x_ratelimit_remaining : option Z;
  x_ratelimit_reset : option Z;
  text : string;
  json : option payload
}.

(** The [variables] dictionary of the search query. *)
Record variables : Type := {
  searchQuery : string;
  first : Z;
  after : option string
}.

(** The arguments of [requests.post]. *)
Record request : Type := {
  req_url : string;
  req_query : string;
  req_variables : variables;
  req_headers : list (string * string);
  req_timeout : Z
}.

(** ** [TokenManager] *)

Record TokenManager : Type := {
  tokens : list string;
  index : nat
}.

(** [TokenManager.__init__]: the comprehension
    [[token.strip() for token in tokens if token and token.strip()]]. *)
Definition cleaned_tokens (tokens : list string) : list string :=
  map strip
    (filter (fun token => negb (is_empty token) && negb (is_empty (strip token)))
       tokens).

Definition TokenManager_init (tokens : list string) : outcome TokenManager :=
  let cleaned := cleaned_tokens tokens in
  match cleaned with
  | [] => Raise NoTokens
  | _ :: _ => Return {| tokens := cleaned; index := 0 |}
  end.

(** The spec's wording of the same list: trim every entry, then discard
    the entries that are empty. *)
Definition trimmed_nonempty (tokens : list string) : list string :=
  filter (fun token => negb (is_empty token)) (map strip tokens).

(** [self.tokens[self.index]] *)
Definition current_token (t : TokenManager) : outcome string :=
  match nth_error (tokens t) (index t) with
  | Some token => Return token
  | None => Raise IndexError
  end.

(** [self.index = (self.index + 1) % len(self.tokens)] *)
Definition next_token (t : TokenManager) : outcome TokenManager :=
  match tokens t with
  | [] => Raise ZeroDivisionError
  | _ :: _ =>
      Return {| tokens := tokens t;
                index := (index t + 1) mod List.length (tokens t) |}
  end.

(** The manager a successful [next_token] leaves behind. *)
Definition rotated (t : TokenManager) : TokenManager :=
  {| tokens := tokens t;
     index := (index t + 1) mod List.length (tokens t) |}.

(** [next_token()] called [n] times in a row. *)
Fixpoint next_token_times (n : nat) (t : TokenManager) : outcome TokenManager :=
  match n with
  | O => Return t
  | S k =>
      match next_token t with
      | Return t' => next_token_times k t'
      | Raise e => Raise e
      end
  end.

(** The dictionary [auth_headers] builds from the current token. *)
Definition bearer_headers (token : string) : list (string * string) :=
  [ ("Authorization", String.append "Bearer " token);
    ("Content-Type", "application/json") ].

Definition auth_headers (t : TokenManager) : outcome (list (string * string)) :=
  match current_token t with
  | Return token => Return (bearer_headers token)
  | Raise e => Raise e
  end.

(** The arguments [graphql_request] gives [requests.post]. *)
Definition post_request (query : string) (vars : variables)
  (headers : list (string * string)) : request :=
  {| req_url := GITHUB_GRAPHQL_URL;
     req_query := query;
     req_variables := vars;
     req_headers := headers;
     req_timeout := 120 |}.

(** ** The world the client runs in *)

(** The three library calls with an effect: [requests.post], [time.sleep]
    and [int(time.time())].  A world is whatever answers them. *)
Record Runtime : Type := {
  World : Type;
  requests_post : World -> request -> outcome response * World;
  time_sleep : Z -> World -> World;
  time_time : World -> Z
}.

(** What a run does that can be seen from outside, in order. *)
Inductive event : Type :=
| EvPost (req : request) (res : outcome response)
| EvSleep (seconds : Z)
| EvNextToken.

Section Client.

Variable R : Runtime.

(** [PAGE_SIZE = int(os.getenv("PAGE_SIZE", "10"))] *)
Variable PAGE_SIZE : Z.

(** The token manager object, the world, and the events so far. *)
Record state : Type := {
  tm : TokenManager;
  world : World R;
  log : list event
}.

Definition M (A : Type) : Type := state -> outcome A * state.

Definition ret {A} (a : A) : M A := fun st => (Return a, st).

Definition raise {A} (e : exception) : M A := fun st => (Raise e, st).

Definition bind {A B} (c : M A) (k : A -> M B) : M B :=
  fun st =>
    match c st with
    | (Return a, st') => k a st'
    | (Raise e, st') => (Raise e, st')
    end.

Notation "x <- c ;; k" := (bind c (fun x => k))
  (at level 61, c at next level, right associativity).
Notation "c ;;; k" := (bind c (fun _ => k))
  (at level 61, right associativity).

Definition call_auth_headers : M (list (string * string)) :=
  fun st => (auth_headers (tm st), st).

Definition call_next_token : M unit :=
  fun st =>
    match next_token (tm st) with
    | Return t' =>
        (Return tt,
         {| tm := t'; world := world st; log := log st ++ [EvNextToken] |})
    | Raise e => (Raise e, st)
    end.

Definition get_index : M nat := fun st => (Return (index (tm st)), st).

Definition call_post (req : request) : M response :=
  fun st =>
    let (res, w) := requests_post R (world st) req in
    (res, {| tm := tm st; world := w; log := log st ++ [EvPost req res] |}).

Definition call_sleep (seconds : Z) : M unit :=
  fun st =>
    (Return tt,
     {| tm := tm st;
        world := time_sleep R seconds (world st);
        log := log st ++ [EvSleep seconds] |}).

Definition call_time : M Z := fun st => (Return (time_time R (world st)), st).

(** [TokenManager.sleep_until_reset] *)
Definition sleep_until_reset (reset_timestamp : Z) : M unit :=
  now <- call_time ;;
  let wait_seconds := Z.max 1 (reset_timestamp - now + 2) in
  call_sleep wait_seconds.

(** The two rate-limit branches share these three lines. *)
Definition rotate_and_maybe_wait (reset_at : Z) : M unit :=
  call_next_token ;;;
  i <- get_index ;;
  if (i =? 0)%nat && (0 <? reset_at)%Z then sleep_until_reset reset_at else ret tt.

Definition header_or (default : Z) (h : option Z) : Z :=
  match h with Some v => v | None => default end.

(** What one iteration does with the response it got; [retry] is the rest
    of the loop, where the source says [continue]. *)
Definition handle_response (retry : M data) (attempts : nat)
  (response : response) : M data :=
  let remaining := header_or 1 (x_ratelimit_remaining response) in
  let reset_at := header_or 0 (x_ratelimit_reset response) in
  if (status_code response =? 200)%Z then
    match json response with
    | None => raise JSONDecodeError
    | Some payload =>
        match errors payload with
        | Some errs =>
            if mentions_rate_limit errs then
              rotate_and_maybe_wait reset_at ;;; retry
            else raise (GraphQLError errs)
        | None =>
            (if (remaining <=? 1)%Z then call_next_token else ret tt) ;;;
            match payload_data payload with
            | Some d => ret d
            | None => raise (KeyError "data")
            end
        end
    end
  else
    if (status_code response =? 403)%Z || (status_code response =? 429)%Z
       || mentions_rate_limit (text response)
    then rotate_and_maybe_wait reset_at ;;; retry
    else if (status_code response =? 500)%Z
            || (status_code response =? 502)%Z
            || (status_code response =? 503)%Z
            || (status_code response =? 504)%Z
    then
      let wait_time := (5 + Z.of_nat attempts * 2)%Z in
      call_sleep wait_time ;;; retry
    else raise (HttpFailure (status_code response) (text response)).

(** [while attempts < max_attempts].  [attempts] goes up by one per
    iteration and nothing else changes it, so the loop runs over
    [left = max_attempts - attempts], the iterations that remain; when none
    remains the statement after the loop raises. *)
Fixpoint attempt_loop (query : string) (vars : variables)
  (left attempts : nat) : M data :=
  match left with
  | O => raise AttemptsExhausted
  | S left' =>
      let attempts := attempts + 1 in
      headers <- call_auth_headers ;;
      response <- call_post (post_request query vars headers) ;;
      handle_response (attempt_loop query vars left' attempts) attempts response
  end.

Definition max_attempts_of (t : TokenManager) : nat :=
  Nat.max 5 (List.length (tokens t) * 3).

Definition graphql_request (query : string) (vars : variables) : M data :=
  fun st =>
    let max_attempts := max_attempts_of (tm st) in
    attempt_loop query vars max_attempts 0 st.

(** [[node for node in search_result["nodes"] if node is not None]] *)
Fixpoint non_null (ns : list (option repository)) : list repository :=
  match ns with
  | [] => []
  | Some node :: t => node :: non_null t
  | None :: t => non_null t
  end.

(** [page_info.get("hasNextPage")] with [page_info] defaulting to [{}]. *)
Definition has_next_page (s : search_result) : bool :=
  match pageInfo s with
  | Some p => hasNextPage p
  | None => false
  end.

Definition end_cursor (s : search_result) : option string :=
  match pageInfo s with
  | Some p => endCursor p
  | None => None
  end.

(** [while remaining > 0] of [fetch_top_repositories].  Nothing in the
    code bounds its iterations, so the loop runs on [fuel], one unit per
    page; [None] says the fuel ran out before the loop ended. *)
Fixpoint fetch_loop (fuel : nat) (all_repos : list repository)
  (cursor : option string) (remaining : Z) (st : state)
  : option (outcome (list repository) * state) :=
  if (remaining >? 0)%Z then
    match fuel with
    | O => None
    | S fuel' =>
        let batch_size := Z.min PAGE_SIZE remaining in
        let vars := {| searchQuery := REPOSITORY_SEARCH_QUERY;
                       first := batch_size;
                       after := cursor |} in
        match graphql_request GRAPHQL_QUERY vars st with
        | (Raise e, st1) => Some (Raise e, st1)
        | (Return d, st1) =>
            let search_result := search d in
            let repos := non_null (nodes search_result) in
            let all_repos := all_repos ++ repos in
            let remaining := (remaining - Z.of_nat (List.length repos))%Z in
            if negb (has_next_page search_result) || (remaining <=? 0)%Z
            then Some (Return all_repos, st1)
            else
              let cursor := end_cursor search_result in
              match call_sleep 1 st1 with
              | (_, st2) => fetch_loop fuel' all_repos cursor remaining st2
              end
        end
    end
  else Some (Return all_repos, st).

Definition fetch_top_repositories (fuel : nat) (limit : Z) (st : state)
  : option (outcome (list repository) * state) :=
  if (limit <=? 0)%Z then Some (Return [], st)
  else fetch_loop fuel [] None limit st.

End Client.

Arguments tm {R} s.
Arguments world {R} s.
Arguments log {R} s.
Arguments Build_state {R} tm world log.
Arguments ret {R A} a _.
Arguments raise {R A} e _.
Arguments bind {R A B} c k _.
Arguments call_next_token {R} _.
Arguments call_post {R} req _.
Arguments call_sleep {R} seconds _.
Arguments sleep_until_reset {R} reset_timestamp _.
Arguments rotate_and_maybe_wait {R} reset_at _.
Arguments handle_response {R} retry attempts response _.
Arguments attempt_loop {R} query vars left attempts _.
Arguments graphql_request {R} query vars _.
Arguments fetch_loop {R} PAGE_SIZE fuel all_repos cursor remaining st.
Arguments fetch_top_repositories {R} PAGE_SIZE fuel limit st.

(** ** Reading a log *)

Fixpoint posts (l : list event) : list request :=
  match l with
  | [] => []
  | EvPost req _ :: t => req :: posts t
  | _ :: t => posts t
  end.

Fixpoint responses (l : list event) : list response :=
  match l with
  | [] => []
  | EvPost _ (Return r) :: t => r :: responses t
  | _ :: t => responses t
  end.

Fixpoint sleeps (l : list event) : list Z :=
  match l with
  | [] => []
  | EvSleep s :: t => s :: sleeps t
  | _ :: t => sleeps t
  end.

Fixpoint rotations (l : list event) : nat :=
  match l with
  | [] => 0
  | EvNextToken :: t => S (rotations t)
  | _ :: t => rotations t
  end.

(** The records a successful page response contributes. *)
Definition page_records (r : response) : list repository :=
  match json r with
  | Some p =>
      match payload_data p with
      | Some d => non_null (nodes (search d))
      | None => []
      end
  | None => []
  end.

(** A response is a successful page [d]: HTTP 200, a JSON body with no
    ["errors"] key and [d] under ["data"]. *)
Definition is_success (r : response) (d : data) : Prop :=
  status_code r = 200%Z /\
  exists p, json r = Some p /\ errors p = None /\ payload_data p = Some d.

(** [remaining <= 1], with the default 1 of a missing header. *)
Definition low_remaining (r : response) : bool :=
  (header_or 1 (x_ratelimit_remaining r) <=? 1)%Z.

(** ** Describing an endpoint *)

Section Endpoint.

Variable R : Runtime.

(** [idles w w']: the world went from [w] to [w'] by sleeping only. *)
Inductive idles : World R -> World R -> Prop :=
| idles_refl (w : World R) : idles w w
| idles_sleep (w w' : World R) (seconds : Z) :
    idles w w' -> idles w (time_sleep R seconds w').

(** [answers rs w]: from [w] on, the next requests are answered with the
    responses [rs], in this order, whatever is asked and however long the
    client sleeps in between. *)
Fixpoint answers (rs : list response) (w : World R) : Prop :=
  match rs with
  | [] => True
  | r :: rs' =>
      forall w1 req, idles w w1 ->
        fst (requests_post R w1 req) = Return r
        /\ answers rs' (snd (requests_post R w1 req))
  end.

End Endpoint.

Arguments idles {R} _ _.
Arguments answers {R} rs w.

(** The four status codes the retry loop treats as transient. *)
Definition transient_status (code : Z) : Prop :=
  code = 500%Z \/ code = 502%Z \/ code = 503%Z \/ code = 504%Z.

(** The events of failed attempts number [attempt], [attempt + 1], ... that
    got the responses [rs] and backed off after each: one POST, then the
    sleep of [5 + attempt * 2] seconds. *)
Fixpoint failed_attempts (req : request) (attempt : nat) (rs : list response)
  : list event :=
  match rs with
  | [] => []
  | r :: rs' =>
      EvPost req (Return r) :: EvSleep (5 + Z.of_nat attempt * 2)
      :: failed_attempts req (S attempt) rs'
  end.

(** ** Simulated endpoints *)

(** A world that answers its [n]-th request (from 0) with [script n], counts
    the requests, and whose clock moves only by the sleeps. *)
Definition scripted (script : nat -> request -> outcome response) : Runtime :=
  {| World := nat * Z;
     requests_post := fun w req => (script (fst w) req, (S (fst w), snd w));
     time_sleep := fun s w => (fst w, (snd w + s)%Z);
     time_time := fun w => snd w |}.

Definition start (script : nat -> request -> outcome response)
  (toks : list string) : state (scripted script) :=
  @Build_state (scripted script)
    {| tokens := toks; index := 0 |} (0, 1700000000%Z) [].

Definition status_response (code : Z) (body : string) : response :=
  {| status_code := code;
     x_ratelimit_remaining := None;
     x_ratelimit_reset := None;
     text := body;
     json := None |}.

Definition sample_repository (n : nat) : repository :=
  {| nameWithOwner := "octocat/hello";
     url := "https://github.com/octocat/hello";
     stargazerCount := Z.of_nat n;
     createdAt := "2011-01-26T19:01:12Z";
     pushedAt := "2024-01-01T00:00:00Z";
     primaryLanguage := None;
     pullRequests := 0;
     releases := 0;
     totalIssues := 0;
     closedIssues := 0 |}.

(** A page of [n] records numbered from [from], with [hasNextPage = more]. *)
Definition sample_page (from n : nat) (more : bool) : data :=
  {| search :=
       {| nodes := map (fun i => Some (sample_repository i)) (seq from n);
          pageInfo := Some {| hasNextPage := more; endCursor := Some "Y3Vyc29y" |} |} |}.

Definition success_response (remaining : option Z) (d : data) : response :=
  {| status_code := 200;
     x_ratelimit_remaining := remaining;
     x_ratelimit_reset := Some 1700003600%Z;
     text := "";
     json := Some {| errors := None; payload_data := Some d |} |}.

Definition errors_response (errs : string) : response :=
  {| status_code := 200;
     x_ratelimit_remaining := Some 4999%Z;
     x_ratelimit_reset := Some 1700003600%Z;
     text := "";
     json := Some {| errors := Some errs; payload_data := None |} |}.

(** Every request is answered 502 with an HTML error page. *)
Definition always_502 : nat -> request -> outcome response :=
  fun _ _ => Return (status_response 502 "<html>Bad Gateway</html>").

(** Every request is answered 502, the body saying the rate limit was hit. *)
Definition always_502_rate_limited : nat -> request -> outcome response :=
  fun _ _ => Return (status_response 502 "API rate limit exceeded").

(** 429 twice, then a page of three records; the success reports
    [remaining]. *)
Definition twice_429_then_success (remaining : option Z)
  : nat -> request -> outcome response :=
  fun n _ =>
    match n with
    | 0 | 1 => Return (status_response 429 "Too Many Requests")
    | _ => Return (success_response remaining (sample_page 0 3 false))
    end.

(** Every request gets the page size it asks for, numbered by the request,
    and is told there is more; asking for a negative number of records is
    an error of the query. *)
Definition full_pages : nat -> request -> outcome response :=
  fun n req =>
    if (first (req_variables req) <? 0)%Z
    then Return (errors_response "[{'message': 'first must be non-negative'}]")
    else
      Return (success_response (Some 4999%Z)
                (sample_page (100 * n) (Z.to_nat (first (req_variables req))) true)).

(** Every request gets one record and is told there is more. *)
Definition single_pages : nat -> request -> outcome response :=
  fun n _ => Return (success_response (Some 4999%Z) (sample_page n 1 true)).

(** The variables of a first page of ten. *)
Definition first_ten : variables :=
  {| searchQuery := REPOSITORY_SEARCH_QUERY; first := 10; after := None |}.

(** Every request gets an empty page and is told there is more. *)
Definition empty_pages : nat -> request -> outcome response :=
  fun _ _ => Return (success_response (Some 4999%Z) (sample_page 0 0 true)).

(** Every request gets the error payload of a malformed query. *)
Definition bad_syntax : nat -> request -> outcome response :=
  fun _ _ => Return (errors_response "[{'message': 'Bad syntax'}]").

(** Every request succeeds with one record and [remaining]. *)
Definition one_record (remaining : option Z) : nat -> request -> outcome response :=
  fun _ _ => Return (success_response remaining (sample_page 0 1 false)).

(** ** More ways to read a response and a log *)

(** The data of a response the loop returns: HTTP 200, a JSON body with no
    ["errors"] key, and a ["data"] key. *)
Definition success_data (r : response) : option data :=
  if (status_code r =? 200)%Z then
    match json r with
    | Some p =>
        match errors p with
        | None => payload_data p
        | Some _ => None
        end
    | None => None
    end
  else None.

(** The records a response hands to the pagination loop: the non-null nodes
    of a successful page, nothing for any other response. *)
Definition response_records (r : response) : list repository :=
  match success_data r with
  | Some d => non_null (nodes (search d))
  | None => []
  end.

(** All the records the responses of a log handed over, in order. *)
Definition collected (evs : list event) : list repository :=
  List.concat (map response_records (responses evs)).

(** [req] is a POST of [graphql_request query vars] made with one of the
    tokens [toks]. *)
Definition sent_by (query : string) (vars : variables) (toks : list string)
  (req : request) : Prop :=
  exists token, In token toks /\ req = post_request query vars (bearer_headers token).

(** The cursor the pagination loop holds after the events [evs], when it
    held [cursor] before: each successful page replaces it by its
    [endCursor]. *)
Fixpoint cursor_after (cursor : option string) (evs : list event)
  : option string :=
  match evs with
  | [] => cursor
  | EvPost _ (Return r) :: t =>
      cursor_after (match success_data r with
                    | Some d => end_cursor (search d)
                    | None => cursor
                    end) t
  | _ :: t => cursor_after cursor t
  end.

(** Every POST of [evs] asks for the page after the cursor in force when it
    is sent, starting from [cursor]. *)
Fixpoint cursors_chain (cursor : option string) (evs : list event) : Prop :=
  match evs with
  | [] => True
  | EvPost req res :: t =>
      after (req_variables req) = cursor
      /\ cursors_chain (cursor_after cursor [EvPost req res]) t
  | _ :: t => cursors_chain cursor t
  end.

(** The three ways a response tells the loop that the rate limit was hit:
    an HTTP 200 whose ["errors"] text mentions it, a 403 or 429, or any
    other non-200 whose body mentions it. *)
Definition rate_limited (r : response) : Prop :=
  (status_code r = 200%Z
   /\ exists p errs, json r = Some p /\ errors p = Some errs
                     /\ mentions_rate_limit errs = true)
  \/ (status_code r <> 200%Z
      /\ (status_code r = 403%Z \/ status_code r = 429%Z
          \/ mentions_rate_limit (text r) = true)).

(** Every request is answered 404. *)
Definition always_404 : nat -> request -> outcome response :=
  fun _ _ => Return (status_response 404 "Not Found").

(** Every request is answered 429, with no rate-limit header. *)
Definition always_429 : nat -> request -> outcome response :=
  fun _ _ => Return (status_response 429 "Too Many Requests").

(** Every request is answered 200 with a JSON object that has neither
    ["errors"] nor ["data"], and [remaining]. *)
Definition empty_object (remaining : option Z) : nat -> request -> outcome response :=
  fun _ _ =>
    Return {| status_code := 200;
              x_ratelimit_remaining := remaining;
              x_ratelimit_reset := None;
              text := "{}";
              json := Some {| errors := None; payload_data := None |} |}.

(** The first request gets a last page of two records, short of any larger
    limit; nothing is expected after it. *)
Definition last_page_of_two : nat -> request -> outcome response :=
  fun _ _ => Return (success_response (Some 4999%Z) (sample_page 0 2 false)).

(** How the events [evs] of one call end, given its outcome: a call that
    returns [d] ends on the POST that got the one successful response, with
    the rotation of a low remaining quota after it; no call sees a
    successful response anywhere else. *)
Definition call_ends (o : outcome data) (evs : list event) : Prop :=
  match o with
  | Return d =>
      exists evs0 req r,
        evs = evs0 ++ EvPost req (Return r)
                      :: (if low_remaining r then [EvNextToken] else [])
        /\ success_data r = Some d
        /\ Forall (fun r0 => success_data r0 = None) (responses evs0)
  | Raise _ => Forall (fun r0 => success_data r0 = None) (responses evs)
  end.

(** ** [Config._load_tokens] of [configuracao.py] *)

(** [c in s] for one character. *)
Fixpoint has_char (c : ascii) (s : string) : bool :=
  match s with
  | EmptyString => false
  | String c' t => Ascii.eqb c' c || has_char c t
  end.

(** [s.split(sep)] for a separator of one character: one piece more than
    there are separators, empty pieces kept. *)
Fixpoint split_on (sep : ascii) (s : string) : list string :=
  match s with
  | EmptyString => [EmptyString]
  | String c t =>
      if Ascii.eqb c sep then EmptyString :: split_on sep t
      else
        match split_on sep t with
        | piece :: pieces => String c piece :: pieces
        | [] => [String c EmptyString]
        end
  end.

(** [os.getenv(name, default)], given the variable's value if it is set. *)
Definition getenv (value : option string) (default : string) : string :=
  match value with
  | Some v => v
  | None => default
  end.

(** [Config._load_tokens], given the value of [GITHUB_TOKENS] if set. *)
Definition load_tokens (GITHUB_TOKENS : option string) : list string :=
  let tokens_str := getenv GITHUB_TOKENS "" in
  if is_empty (strip tokens_str) then []
  else
    map strip
      (filter (fun t => negb (is_empty (strip t))) (split_on "," tokens_str)).

(** A string that does not start with whitespace. *)
Definition no_leading_space (s : string) : Prop :=
  match s with
  | EmptyString => True
  | String c _ => isspace c = false
  end.

(** A credential as the configuration promises it: not empty, trimmed,
    and without a comma. *)
Definition clean_token (t : string) : Prop :=
  t <> "" /\ strip t = t /\ has_char "," t = false.

(** The state a run of the pagination loop ends in; [default] when the
    fuel ran out. *)
Definition final_state {R : Runtime} {A : Type}
  (res : option (outcome A * state R)) (default : state R) : state R :=
  match res with
  | Some (_, st) => st
  | None => default
  end.

(** A transient error, a page of the size asked, a 429, a page of the size
    asked, and so on: every page needs two attempts. *)
Definition flaky_pages : nat -> request -> outcome response :=
  fun n req =>
    match n with
    | 0 => Return (status_response 502 "<html>Bad Gateway</html>")
    | 2 => Return (status_response 429 "Too Many Requests")
    | _ =>
        Return (success_response (Some 4999%Z)
                  {| search :=
                       {| nodes := map (fun i => Some (sample_repository i))
                                     (seq (100 * n) (Z.to_nat (first (req_variables req))));
                          pageInfo := Some {| hasNextPage := true;
                                              endCursor := Some (if (n =? 1)%nat
                                                                 then "cursor-1"
                                                                 else "cursor-2") |} |} |})
    end.

(** ** [main], up to the raw repositories *)

(** The first three statements of [main]: [Config()], the token manager over
    its tokens, and the collection.  The value of [LIMIT] comes as the
    integer [Config] reads from it; the world starts at [w] with nothing
    logged.  The result is the outcome with the world and the events at the
    end ([None]: the fuel ran out). *)
Definition main_collect {R : Runtime} (PAGE_SIZE : Z)
  (GITHUB_TOKENS : option string) (LIMIT : Z) (fuel : nat) (w : World R)
  : option (outcome (list repository) * (World R * list event)) :=
  let config_tokens := load_tokens GITHUB_TOKENS in
  match TokenManager_init config_tokens with
  | Raise e => Some (Raise e, (w, []))
  | Return token_manager =>
      match fetch_top_repositories PAGE_SIZE fuel LIMIT
              {| tm := token_manager; world := w; log := [] |} with
      | Some (o, st) => Some (o, (world st, log st))
      | None => None
      end
  end.

(** ** [metricas_rqs.py] *)

Module Metrics.

(** A number as Python has it at run time: an [int] or a [float]. *)
Inductive number (float : Type) : Type :=
| Int (z : Z)
| Float (f : float).
Arguments Int {float} z.
Arguments Float {float} f.

(** What the module takes from Python's library: [datetime] with
    [datetime.fromisoformat] ([None]: the text is refused) and
    [(a - b).days] ([None]: the subtraction raises, as it does between a
    datetime that has a time zone and one that has none); [float] with the
    true division [a / b] of two integers ([None]: the division raises); and
    [statistics.median] ([None]: it raises). *)
Record Library : Type := {
  datetime : Type;
  fromisoformat : string -> option datetime;
  days : datetime -> datetime -> option Z;
  float : Type;
  truediv : Z -> Z -> option float;
  median : list (number float) -> option (number float)
}.

(** [iso_value.replace("Z", "+00:00")] *)
Fixpoint replace_Z (iso_value : string) : string :=
  match iso_value with
  | EmptyString => EmptyString
  | String c t =>
      if Ascii.eqb c "Z" then String.append "+00:00" (replace_Z t)
      else String c (replace_Z t)
  end.

(** The fields of the raw repository whose names the normalized record
    takes over. *)
Definition raw_url : repository -> string := url.
Definition raw_releases : repository -> Z := releases.

Section WithLibrary.

Variable L : Library.

Definition iso_to_datetime (iso_value : string) : option (datetime L) :=
  fromisoformat L (replace_Z iso_value).

(** The dictionary [normalize_repository] returns. *)
Record normalized : Type := {
  name_with_owner : string;
  url : string;
  stars : Z;
  created_at : string;
  pushed_at : string;
  age_days : Z;
  merged_pull_requests : Z;
  releases : Z;
  days_since_last_update : Z;
  primary_language : string;
  closed_issues : Z;
  total_issues : Z;
  closed_issues_ratio : option (float L)
}.

(** [None]: one of the library calls raised. *)
Definition normalize_repository (repo : repository) (now_utc : datetime L)
  : option normalized :=
  match iso_to_datetime (createdAt repo) with
  | None => None
  | Some created =>
      match iso_to_datetime (pushedAt repo) with
      | None => None
      | Some pushed =>
          match days L now_utc created with
          | None => None
          | Some age =>
          match days L now_utc pushed with
          | None => None
          | Some since_last_update =>
          let merged_prs := pullRequests repo in
          let n_releases := raw_releases repo in
          let n_total_issues := totalIssues repo in
          let n_closed_issues := closedIssues repo in
          let ratio : option (option (float L)) :=
            if (n_total_issues >? 0)%Z then
              match truediv L n_closed_issues n_total_issues with
              | Some f => Some (Some f)
              | None => None
              end
            else Some None in
          match ratio with
          | None => None
          | Some ratio =>
              let language :=
                match primaryLanguage repo with
                | Some name => if is_empty name then "Unknown" else name
                | None => "Unknown"
                end in
              Some {| name_with_owner := nameWithOwner repo;
                      url := raw_url repo;
                      stars := stargazerCount repo;
                      created_at := createdAt repo;
                      pushed_at := pushedAt repo;
                      age_days := age;
                      merged_pull_requests := merged_prs;
                      releases := n_releases;
                      days_since_last_update := since_last_update;
                      primary_language := language;
                      closed_issues := n_closed_issues;
                      total_issues := n_total_issues;
                      closed_issues_ratio := ratio |}
          end
          end
          end
      end
  end.

(** [Counter(keys)]: the count of every key, the keys in the order they
    first come. *)
Fixpoint counter_add (key : string) (counter : list (string * nat))
  : list (string * nat) :=
  match counter with
  | [] => [(key, 1)]
  | (k, n) :: t =>
      if String.eqb k key then (k, S n) :: t else (k, n) :: counter_add key t
  end.

Definition Counter (keys : list string) : list (string * nat) :=
  fold_left (fun counter key => counter_add key counter) keys [].

(** [by_language[key].append(repo)] on a [defaultdict(list)]: the keys in
    the order they first come. *)
Fixpoint group_add (key : string) (repo : normalized)
  (groups : list (string * list normalized)) : list (string * list normalized) :=
  match groups with
  | [] => [(key, [repo])]
  | (k, repos) :: t =>
      if String.eqb k key then (k, repos ++ [repo]) :: t
      else (k, repos) :: group_add key repo t
  end.

Definition by_language (repositories : list normalized)
  : list (string * list normalized) :=
  fold_left (fun groups repo => group_add (primary_language repo) repo groups)
    repositories [].

(** One entry of [rq07_by_language]. *)
Record language_row : Type := {
  language : string;
  repositories : nat;
  median_merged_pull_requests : number (float L);
  median_releases : number (float L);
  median_days_since_last_update : number (float L)
}.

Definition int_values (f : normalized -> Z) (repos : list normalized)
  : list (number (float L)) :=
  map (fun r => Int (f r)) repos.

Definition language_row_of (lang : string) (repos : list normalized)
  : option language_row :=
  match median L (int_values merged_pull_requests repos) with
  | None => None
  | Some m_prs =>
      match median L (int_values releases repos) with
      | None => None
      | Some m_releases =>
          match median L (int_values days_since_last_update repos) with
          | None => None
          | Some m_days =>
              Some {| language := lang;
                      repositories := List.length repos;
                      median_merged_pull_requests := m_prs;
                      median_releases := m_releases;
                      median_days_since_last_update := m_days |}
          end
      end
  end.

(** The loop over [by_language.items()]. *)
Fixpoint language_rows (groups : list (string * list normalized))
  : option (list language_row) :=
  match groups with
  | [] => Some []
  | (lang, repos) :: t =>
      match language_row_of lang repos with
      | None => None
      | Some row =>
          match language_rows t with
          | None => None
          | Some rows => Some (row :: rows)
          end
      end
  end.

(** [language_rq07.sort(key=lambda item: item["repositories"],
    reverse=True)].  Python's sort is stable, also with [reverse=True]: the
    result is the one list that is in descending order of the key and keeps
    entries of equal key in their former order.  Insertion from the right,
    each entry put before the first one whose key is not larger, builds
    that list. *)
Fixpoint insert_row (row : language_row) (sorted : list language_row)
  : list language_row :=
  match sorted with
  | [] => [row]
  | y :: t =>
      if (repositories y <=? repositories row)%nat then row :: y :: t
      else y :: insert_row row t
  end.

Definition sort_rows (rows : list language_row) : list language_row :=
  fold_right insert_row [] rows.

(** [statistics.median(values) if values else None]; the outer [None]: the
    median raised. *)
Definition median_or_none (values : list (number (float L)))
  : option (option (number (float L))) :=
  match values with
  | [] => Some None
  | _ :: _ =>
      match median L values with
      | Some m => Some (Some m)
      | None => None
      end
  end.

(** [[repo["closed_issues_ratio"] for repo in repositories if ... is not
    None]] *)
Fixpoint issues_ratio_values (repos : list normalized)
  : list (number (float L)) :=
  match repos with
  | [] => []
  | r :: t =>
      match closed_issues_ratio r with
      | Some f => Float f :: issues_ratio_values t
      | None => issues_ratio_values t
      end
  end.

(** The dictionary [summarize_metrics] returns. *)
Record summary : Type := {
  total_repositories : nat;
  rq01_median_age_days : option (number (float L));
  rq02_median_accepted_prs : option (number (float L));
  rq03_median_releases : option (number (float L));
  rq04_median_days_since_last_update : option (number (float L));
  rq05_language_count : list (string * nat);
  rq06_median_closed_issues_ratio : option (number (float L));
  rq07_by_language : list language_row
}.

(** [None]: a median raised. *)
Definition summarize_metrics (repos : list normalized) : option summary :=
  let age_days_values := int_values age_days repos in
  let merged_pr_values := int_values merged_pull_requests repos in
  let releases_values := int_values releases repos in
  let days_since_update_values := int_values days_since_last_update repos in
  let ratio_values := issues_ratio_values repos in
  let language_counter := Counter (map primary_language repos) in
  match language_rows (by_language repos) with
  | None => None
  | Some language_rq07 =>
      let language_rq07 := sort_rows language_rq07 in
      match median_or_none age_days_values,
            median_or_none merged_pr_values,
            median_or_none releases_values,
            median_or_none days_since_update_values,
            median_or_none ratio_values with
      | Some rq01, Some rq02, Some rq03, Some rq04, Some rq06 =>
          Some {| total_repositories := List.length repos;
                  rq01_median_age_days := rq01;
                  rq02_median_accepted_prs := rq02;
                  rq03_median_releases := rq03;
                  rq04_median_days_since_last_update := rq04;
                  rq05_language_count := language_counter;
                  rq06_median_closed_issues_ratio := rq06;
                  rq07_by_language := language_rq07 |}
      | _, _, _, _, _ => None
      end
  end.

(** [counter[key]] and [by_language[key]], read without adding the key. *)
Fixpoint count_of (key : string) (counter : list (string * nat)) : nat :=
  match counter with
  | [] => 0
  | (k, n) :: t => if String.eqb k key then n else count_of key t
  end.

Fixpoint group_of (key : string) (groups : list (string * list normalized))
  : list normalized :=
  match groups with
  | [] => []
  | (k, repos) :: t => if String.eqb k key then repos else group_of key t
  end.

(** The languages of the groups with the number of repositories of each. *)
Definition sizes (groups : list (string * list normalized))
  : list (string * nat) :=
  map (fun g => (fst g, List.length (snd g))) groups.

(** The language and the number of repositories of each row. *)
Definition row_counts (rows : list language_row) : list (string * nat) :=
  map (fun row => (language row, repositories row)) rows.

(** The repositories of one language, in their order. *)
Definition of_language (lang : string) (repos : list normalized)
  : list normalized :=
  filter (fun r => String.eqb (primary_language r) lang) repos.

(** [main] after the collection: every raw repository normalized against
    the same [now_utc], in order; the first failure ends it. *)
Fixpoint normalize_all (raw : list repository) (now_utc : datetime L)
  : option (list normalized) :=
  match raw with
  | [] => Some []
  | repo :: t =>
      match normalize_repository repo now_utc with
      | None => None
      | Some n =>
          match normalize_all t now_utc with
          | None => None
          | Some ns => Some (n :: ns)
          end
      end
  end.

End WithLibrary.

Arguments name_with_owner {L} _.
Arguments url {L} _.
Arguments stars {L} _.
Arguments created_at {L} _.
Arguments pushed_at {L} _.
Arguments age_days {L} _.
Arguments merged_pull_requests {L} _.
Arguments releases {L} _.
Arguments days_since_last_update {L} _.
Arguments primary_language {L} _.
Arguments closed_issues {L} _.
Arguments total_issues {L} _.
Arguments closed_issues_ratio {L} _.
Arguments language {L} _.
Arguments repositories {L} _.
Arguments median_merged_pull_requests {L} _.
Arguments median_releases {L} _.
Arguments median_days_since_last_update {L} _.
Arguments total_repositories {L} _.
Arguments rq01_median_age_days {L} _.
Arguments rq02_median_accepted_prs {L} _.
Arguments rq03_median_releases {L} _.
Arguments rq04_median_days_since_last_update {L} _.
Arguments rq05_language_count {L} _.
Arguments rq06_median_closed_issues_ratio {L} _.
Arguments rq07_by_language {L} _.
Arguments group_add {L} key repo groups.
Arguments by_language {L} repositories.
Arguments int_values {L} f repos.
Arguments issues_ratio_values {L} repos.
Arguments insert_row {L} row sorted.
Arguments sort_rows {L} rows.
Arguments group_of {L} key groups.
Arguments sizes {L} groups.
Arguments row_counts {L} rows.
Arguments of_language {L} lang repos.

(** A library to run the module against: a datetime is a number of
    seconds with a mark that says whether it has a time zone, read from a
    table of known texts, and two datetimes subtract when both have a time
    zone or neither has; a float is a fraction [n / d] with [d > 0], kept
    exact; the median sorts by value and takes the middle, or the mean of
    the two middles. *)
Definition known_instants : list (string * (Z * bool)) :=
  [ ("2011-01-26T19:01:12+00:00", (1296068472%Z, true));
    ("2020-06-01T00:00:00+00:00", (1590969600%Z, true));
    ("2024-01-01T00:00:00+00:00", (1704067200%Z, true));
    ("2020-06-01T00:00:00", (1590969600%Z, false)) ].

Fixpoint lookup_instant (text : string) (table : list (string * (Z * bool)))
  : option (Z * bool) :=
  match table with
  | [] => None
  | (k, v) :: t => if String.eqb k text then Some v else lookup_instant text t
  end.

Definition fraction_of (x : number (Z * Z)) : Z * Z :=
  match x with
  | Int z => (z, 1%Z)
  | Float f => f
  end.

Definition fraction_leb (a b : number (Z * Z)) : bool :=
  (fst (fraction_of a) * snd (fraction_of b)
   <=? fst (fraction_of b) * snd (fraction_of a))%Z.

Fixpoint insert_number (x : number (Z * Z)) (sorted : list (number (Z * Z)))
  : list (number (Z * Z)) :=
  match sorted with
  | [] => [x]
  | y :: t => if fraction_leb x y then x :: y :: t else y :: insert_number x t
  end.

Definition simulated_median (values : list (number (Z * Z)))
  : option (number (Z * Z)) :=
  match values with
  | [] => None
  | x :: _ =>
      let data := fold_right insert_number [] values in
      let n := List.length data in
      if Nat.odd n then Some (nth (n / 2) data x)
      else
        let a := fraction_of (nth (n / 2 - 1) data x) in
        let b := fraction_of (nth (n / 2) data x) in
        Some (Float ((fst a * snd b + fst b * snd a)%Z, (2 * snd a * snd b)%Z))
  end.

Definition simulated_library : Library :=
  {| datetime := (Z * bool)%type;
     fromisoformat := fun text => lookup_instant text known_instants;
     days := fun a b =>
               if Bool.eqb (snd a) (snd b)
               then Some ((fst a - fst b) / 86400)%Z
               else None;
     float := (Z * Z)%type;
     truediv := fun a b =>
                  if (b =? 0)%Z then None
                  else if (0 <? b)%Z then Some (a, b) else Some ((- a)%Z, (- b)%Z);
     median := simulated_median |}.

End Metrics.

(** A raw repository for the runs of the metrics. *)
Definition sample_raw (name : string) (lang : option string)
  (prs rels issues closed : Z) : repository :=
  {| nameWithOwner := name;
     url := "https://github.com/";
     stargazerCount := 1000;
     createdAt := "2011-01-26T19:01:12Z";
     pushedAt := "2020-06-01T00:00:00Z";
     primaryLanguage := lang;
     pullRequests := prs;
     releases := rels;
     totalIssues := issues;
     closedIssues := closed |}.

Definition sample_raws : list repository :=
  [ sample_raw "a/one" (Some "Python") 10 1 4 2;
    sample_raw "b/two" (Some "Go") 20 2 0 0;
    sample_raw "c/three" (Some "Python") 30 3 9 3;
    sample_raw "d/four" None 40 4 5 5;
    sample_raw "e/five" (Some "") 50 5 1 0;
    sample_raw "f/six" (Some "Go") 60 6 2 1;
    sample_raw "g/seven" (Some "Rust") 70 7 3 3;
    sample_raw "h/eight" (Some "Go") 80 8 8 4 ].

(** A raw repository whose creation timestamp is [created]. *)
Definition sample_raw_created (created : string) : repository :=
  {| nameWithOwner := "x/y";
     url := "https://github.com/";
     stargazerCount := 0;
     createdAt := created;
     pushedAt := "2020-06-01T00:00:00Z";
     primaryLanguage := None;
     pullRequests := 0;
     releases := 0;
     totalIssues := 0;
     closedIssues := 0 |}.

(** The sample normalized on 2024-01-01 by the simulated library. *)
Definition sample_normalized : list (Metrics.normalized Metrics.simulated_library) :=
  match Metrics.normalize_all Metrics.simulated_library sample_raws
          (1704067200%Z, true) with
  | Some ns => ns
  | None => []
  end.

(** * Properties *)

(** ** String helpers *)

Lemma strip_empty : strip "" = "".
Proof. reflexivity. Qed.

Lemma is_empty_true (s : string) : is_empty s = true -> s = "".
Proof. destruct s; [reflexivity | discriminate]. Qed.

Example strip_example : strip "  ghp_abc 	" = "ghp_abc".
Proof. reflexivity. Qed.

Example blank_is_stripped_to_empty : strip (String (ascii_of_nat 160) " ") = "".
Proof. reflexivity. Qed.

Example rate_limit_is_case_insensitive :
  mentions_rate_limit "API Rate Limit exceeded" = true
  /\ mentions_rate_limit "[{'message': 'Bad syntax'}]" = false.
Proof. split; reflexivity. Qed.

(** ** [TokenManager] *)

(** The comprehension of [__init__] filters before it trims; the spec trims
    before it filters.  Both give the same list. *)
Lemma cleaned_tokens_trimmed (toks : list string) :
  cleaned_tokens toks = trimmed_nonempty toks.
Proof.
  unfold cleaned_tokens, trimmed_nonempty.
  induction toks as [|token rest IH]; simpl; [reflexivity|].
  destruct (is_empty token) eqn:Etoken; simpl.
  - apply is_empty_true in Etoken; subst token.
    rewrite strip_empty; simpl; exact IH.
  - destruct (is_empty (strip token)); simpl; [exact IH | now rewrite IH].
Qed.

(** C7: construction raises the no-token error exactly when trimming every
    entry and discarding the empty ones leaves nothing; otherwise it
    succeeds with exactly those trimmed entries, in order, and index 0. *)
Theorem TokenManager_init_spec (toks : list string) :
  (TokenManager_init toks = Raise NoTokens <-> trimmed_nonempty toks = [])
  /\ (trimmed_nonempty toks <> [] ->
      TokenManager_init toks
      = Return {| tokens := trimmed_nonempty toks; index := 0 |})
  /\ (forall t, TokenManager_init toks = Return t ->
      tokens t = trimmed_nonempty toks /\ index t = 0
      /\ index t < List.length (tokens t)).
Proof.
  unfold TokenManager_init.
  rewrite cleaned_tokens_trimmed.
  destruct (trimmed_nonempty toks) as [|x l] eqn:E.
  - repeat split; try congruence; try discriminate.
  - split; [split; discriminate|].
    split; [reflexivity|].
    intros t Ht. injection Ht as <-. simpl. repeat split. lia.
Qed.

Example TokenManager_init_blank :
  TokenManager_init [] = Raise NoTokens
  /\ TokenManager_init [""; "   "; String (ascii_of_nat 9) ""] = Raise NoTokens
  /\ TokenManager_init [" a "; ""; "b"]
     = Return {| tokens := ["a"; "b"]; index := 0 |}.
Proof. repeat split. Qed.

Lemma next_token_nonempty (t : TokenManager) :
  tokens t <> [] ->
  next_token t
  = Return {| tokens := tokens t;
              index := (index t + 1) mod List.length (tokens t) |}.
Proof.
  unfold next_token. destruct (tokens t); [congruence | reflexivity].
Qed.

Lemma in_range_nonempty (t : TokenManager) :
  index t < List.length (tokens t) -> tokens t <> [].
Proof. destruct (tokens t); simpl; [lia | discriminate]. Qed.

Lemma next_token_times_index (n : nat) :
  forall t, index t < List.length (tokens t) ->
  next_token_times n t
  = Return {| tokens := tokens t;
              index := (index t + n) mod List.length (tokens t) |}.
Proof.
  induction n as [|n IH]; intros t Hi.
  - simpl. rewrite Nat.add_0_r, Nat.mod_small by exact Hi. now destruct t.
  - simpl. rewrite next_token_nonempty by now apply in_range_nonempty.
    assert (Hpos : List.length (tokens t) <> 0) by lia.
    rewrite IH; simpl.
    + f_equal. f_equal.
      rewrite Nat.Div0.add_mod_idemp_l. f_equal. lia.
    + now apply Nat.mod_upper_bound.
Qed.

(** C9: on a manager with at least one token and an index in range, one
    [next_token] moves the index [i] to [(i + 1) mod count], and [count] of
    them in a row bring the manager back to where it started. *)
Theorem next_token_circular (t : TokenManager) :
  1 <= List.length (tokens t) ->
  index t < List.length (tokens t) ->
  next_token t
  = Return {| tokens := tokens t;
              index := (index t + 1) mod List.length (tokens t) |}
  /\ next_token_times (List.length (tokens t)) t = Return t.
Proof.
  intros Hcount Hi. split.
  - now apply next_token_nonempty, in_range_nonempty.
  - rewrite next_token_times_index by exact Hi.
    replace (index t + List.length (tokens t))
      with (index t + 1 * List.length (tokens t)) by lia.
    rewrite Nat.Div0.mod_add, Nat.mod_small by exact Hi.
    now destruct t.
Qed.

Lemma next_token_circular_witness :
  next_token {| tokens := ["a"; "b"; "c"]; index := 2 |}
  = Return {| tokens := ["a"; "b"; "c"]; index := 0 |}
  /\ next_token_times 3 {| tokens := ["a"; "b"; "c"]; index := 2 |}
     = Return {| tokens := ["a"; "b"; "c"]; index := 2 |}.
Proof.
  apply (next_token_circular {| tokens := ["a"; "b"; "c"]; index := 2 |});
    simpl; lia.
Defined.

(** ** Reading a log that grows *)

Lemma posts_app (l1 l2 : list event) : posts (l1 ++ l2) = posts l1 ++ posts l2.
Proof.
  induction l1 as [|[req res|s|] l1 IH]; simpl; [reflexivity | | |];
    now rewrite IH.
Qed.

Lemma responses_app (l1 l2 : list event) :
  responses (l1 ++ l2) = responses l1 ++ responses l2.
Proof.
  induction l1 as [|[req [r|e]|s|] l1 IH]; simpl; [reflexivity | | | |];
    now rewrite IH.
Qed.

Lemma sleeps_app (l1 l2 : list event) :
  sleeps (l1 ++ l2) = sleeps l1 ++ sleeps l2.
Proof.
  induction l1 as [|[req res|s|] l1 IH]; simpl; [reflexivity | | |];
    now rewrite IH.
Qed.

Lemma rotations_app (l1 l2 : list event) :
  rotations (l1 ++ l2) = rotations l1 + rotations l2.
Proof.
  induction l1 as [|[req res|s|] l1 IH]; simpl; [reflexivity | | |];
    now rewrite IH.
Qed.

Lemma failed_attempts_posts (req : request) (rs : list response) :
  forall a, posts (failed_attempts req a rs) = repeat req (List.length rs).
Proof. induction rs as [|r rs IH]; intros a; cbn; [|rewrite IH]; reflexivity. Qed.

Lemma failed_attempts_sleeps (req : request) (rs : list response) :
  forall a,
  sleeps (failed_attempts req a rs)
  = map (fun k => (5 + Z.of_nat k * 2)%Z) (seq a (List.length rs)).
Proof. induction rs as [|r rs IH]; intros a; cbn; [|rewrite IH]; reflexivity. Qed.

Lemma failed_attempts_rotations (req : request) (rs : list response) :
  forall a, rotations (failed_attempts req a rs) = 0.
Proof. induction rs as [|r rs IH]; intros a; cbn; [|rewrite IH]; reflexivity. Qed.

(** ** One request *)

Section Request.

Variable R : Runtime.
Implicit Types (st : state R) (t : TokenManager).

Lemma auth_headers_at t (token : string) :
  nth_error (tokens t) (index t) = Some token ->
  auth_headers t = Return (bearer_headers token).
Proof. intros H. unfold auth_headers, current_token. now rewrite H. Qed.

Lemma token_in_range t (token : string) :
  nth_error (tokens t) (index t) = Some token ->
  index t < List.length (tokens t).
Proof. intros H. apply nth_error_Some. congruence. Qed.

Lemma rotated_in_range t :
  tokens t <> [] -> index (rotated t) < List.length (tokens (rotated t)).
Proof.
  intros H. simpl. apply Nat.mod_upper_bound.
  destruct (tokens t); simpl; [congruence | lia].
Qed.

Lemma rotated_token t :
  tokens t <> [] ->
  exists token, nth_error (tokens (rotated t)) (index (rotated t)) = Some token.
Proof.
  intros H. apply rotated_in_range in H.
  destruct (nth_error (tokens (rotated t)) (index (rotated t))) eqn:E;
    [eauto | apply nth_error_None in E; lia].
Qed.

Lemma next_token_rotated t : tokens t <> [] -> next_token t = Return (rotated t).
Proof. apply next_token_nonempty. Qed.

Lemma call_next_token_rotated st :
  tokens (tm st) <> [] ->
  call_next_token st
  = (Return tt,
     {| tm := rotated (tm st); world := world st;
        log := log st ++ [EvNextToken] |}).
Proof. intros H. unfold call_next_token. now rewrite next_token_rotated. Qed.

(** One iteration: the headers of the current token, one POST, and then
    whatever [handle_response] makes of the answer. *)
Lemma attempt_loop_S (q : string) (v : variables) (left a : nat) st
  (token : string) (res : outcome response) (w' : World R) :
  nth_error (tokens (tm st)) (index (tm st)) = Some token ->
  requests_post R (world st) (post_request q v (bearer_headers token)) = (res, w') ->
  attempt_loop q v (S left) a st
  = let st1 := {| tm := tm st; world := w';
                  log := log st
                         ++ [EvPost (post_request q v (bearer_headers token)) res] |} in
    match res with
    | Return r => handle_response (attempt_loop q v left (a + 1)) (a + 1) r st1
    | Raise e => (Raise e, st1)
    end.
Proof.
  intros Htok Hpost. cbn [attempt_loop].
  unfold bind at 1. unfold call_auth_headers.
  rewrite (auth_headers_at _ _ Htok).
  unfold bind at 1. unfold call_post. rewrite Hpost.
  destruct res; reflexivity.
Qed.

(** The rate-limit branch: one rotation, then a sleep until the reset when
    the index came back to 0 and a reset time is known. *)
Lemma rotate_and_maybe_wait_spec (reset_at : Z) st :
  tokens (tm st) <> [] ->
  exists st',
    rotate_and_maybe_wait reset_at st = (Return tt, st')
    /\ tm st' = rotated (tm st)
    /\ idles (world st) (world st')
    /\ exists evs, log st' = log st ++ EvNextToken :: evs
                   /\ posts evs = [] /\ rotations evs = 0
                   /\ sleeps evs
                      = if (index (rotated (tm st)) =? 0)%nat && (0 <? reset_at)%Z
                        then [Z.max 1 (reset_at - time_time R (world st) + 2)]
                        else [].
Proof.
  intros H. unfold rotate_and_maybe_wait.
  unfold bind at 1. rewrite (call_next_token_rotated _ H).
  unfold bind at 1, get_index. cbn [tm index].
  destruct ((index (rotated (tm st)) =? 0)%nat && (0 <? reset_at)%Z).
  - unfold sleep_until_reset, bind, call_time, call_sleep. cbn.
    eexists. split; [reflexivity|]. cbn. split; [reflexivity|].
    split; [apply idles_sleep, idles_refl|].
    eexists. rewrite <- app_assoc. cbn. split; [reflexivity|]. now repeat split.
  - unfold ret. eexists. split; [reflexivity|]. cbn. split; [reflexivity|].
    split; [apply idles_refl|].
    exists []. now repeat split.
Qed.

(** HTTP 200 with an ["errors"] key that does not mention the rate limit. *)
Lemma handle_graphql_error (retry : M R data) (a : nat) (r : response)
  (p : payload) (errs : string) st :
  status_code r = 200%Z -> json r = Some p -> errors p = Some errs ->
  mentions_rate_limit errs = false ->
  handle_response retry a r st = (Raise (GraphQLError errs), st).
Proof.
  intros Hs Hj He Hm. unfold handle_response.
  rewrite Hs, Hj, He, Hm. reflexivity.
Qed.

(** HTTP 200 without an ["errors"] key. *)
Lemma handle_success (retry : M R data) (a : nat) (r : response) (d : data) st :
  is_success r d -> tokens (tm st) <> [] ->
  handle_response retry a r st
  = (Return d,
     if low_remaining r
     then {| tm := rotated (tm st); world := world st;
             log := log st ++ [EvNextToken] |}
     else st).
Proof.
  intros [Hs [p [Hj [He Hd]]]] Htok. unfold handle_response, low_remaining.
  rewrite Hs, Hj, He, Hd. cbn [Z.eqb Pos.eqb].
  destruct (header_or 1 (x_ratelimit_remaining r) <=? 1)%Z.
  - unfold bind. rewrite (call_next_token_rotated _ Htok). reflexivity.
  - reflexivity.
Qed.

(** A transient status whose body does not mention the rate limit. *)
Lemma handle_transient (retry : M R data) (a : nat) (r : response) st :
  transient_status (status_code r) ->
  mentions_rate_limit (text r) = false ->
  handle_response retry a r st
  = retry {| tm := tm st;
             world := time_sleep R (5 + Z.of_nat a * 2) (world st);
             log := log st ++ [EvSleep (5 + Z.of_nat a * 2)] |}.
Proof.
  intros Hs Hm. unfold handle_response.
  destruct Hs as [Hs | [Hs | [Hs | Hs]]]; rewrite Hs, Hm; reflexivity.
Qed.

(** HTTP 403 or 429. *)
Lemma handle_rate_limited (retry : M R data) (a : nat) (r : response) st :
  status_code r = 403%Z \/ status_code r = 429%Z ->
  handle_response retry a r st
  = bind (rotate_and_maybe_wait (header_or 0 (x_ratelimit_reset r)))
         (fun _ => retry) st.
Proof.
  intros Hs. unfold handle_response.
  destruct Hs as [Hs | Hs]; rewrite Hs; reflexivity.
Qed.

(** C6: an HTTP 200 answer whose ["errors"] text does not mention the rate
    limit ends the call at once with the GraphQL error carrying that text:
    the log gains that one POST and nothing else, and the token manager is
    as it was.  This holds at every iteration of the loop, and so for the
    call whose first answer is such a payload, which fails after exactly one
    attempt. *)
Theorem graphql_error_not_retried (q : string) (v : variables) st
  (token : string) (r : response) (p : payload) (errs : string) (w' : World R) :
  nth_error (tokens (tm st)) (index (tm st)) = Some token ->
  requests_post R (world st) (post_request q v (bearer_headers token))
  = (Return r, w') ->
  status_code r = 200%Z -> json r = Some p -> errors p = Some errs ->
  mentions_rate_limit errs = false ->
  let st' :=
    {| tm := tm st; world := w';
       log := log st
              ++ [EvPost (post_request q v (bearer_headers token)) (Return r)] |} in
  (forall left a,
      attempt_loop q v (S left) a st = (Raise (GraphQLError errs), st'))
  /\ graphql_request q v st = (Raise (GraphQLError errs), st').
Proof.
  intros Htok Hpost Hs Hj He Hm st'.
  assert (Hloop : forall left a,
             attempt_loop q v (S left) a st = (Raise (GraphQLError errs), st')).
  { intros left a. rewrite (attempt_loop_S _ _ _ _ _ _ _ _ Htok Hpost). cbv zeta.
    now apply handle_graphql_error with (p := p). }
  split; [exact Hloop|].
  unfold graphql_request, max_attempts_of.
  destruct (Nat.max 5 (List.length (tokens (tm st)) * 3)) as [|left] eqn:E; [lia|].
  apply Hloop.
Qed.

(** What a returning [handle_response] has done: either the response was
    a successful page, or the loop went on from a state with the same
    tokens and a longer log. *)
Lemma handle_response_return (retry : M R data) (a : nat) (r : response) st
  (d : data) (st' : state R) :
  tokens (tm st) <> [] ->
  handle_response retry a r st = (Return d, st') ->
  (is_success r d
   /\ st' = if low_remaining r
            then {| tm := rotated (tm st); world := world st;
                    log := log st ++ [EvNextToken] |}
            else st)
  \/ (exists st2 evs,
        retry st2 = (Return d, st')
        /\ tokens (tm st2) = tokens (tm st)
        /\ log st2 = log st ++ evs).
Proof.
  intros Hne H.
  assert (Hrot : forall reset,
             bind (rotate_and_maybe_wait reset) (fun _ => retry) st = (Return d, st') ->
             exists st2 evs,
               retry st2 = (Return d, st')
               /\ tokens (tm st2) = tokens (tm st)
               /\ log st2 = log st ++ evs).
  { intros reset Hb.
    destruct (rotate_and_maybe_wait_spec reset st Hne)
      as (st2 & Hrun & Htm & _ & evs & Hlog & _).
    unfold bind in Hb. rewrite Hrun in Hb.
    exists st2, (EvNextToken :: evs). rewrite Htm. now repeat split. }
  unfold handle_response in H.
  destruct (status_code r =? 200)%Z eqn:Es.
  - apply Z.eqb_eq in Es.
    destruct (json r) as [p|] eqn:Ej; [|discriminate].
    destruct (errors p) as [errs|] eqn:Ee.
    + destruct (mentions_rate_limit errs); [|discriminate].
      right. now apply Hrot with (reset := header_or 0 (x_ratelimit_reset r)).
    + left. destruct (payload_data p) as [d0|] eqn:Ed.
      * assert (Hok : is_success r d0) by (split; [exact Es | now exists p]).
        pose proof (handle_success retry a r d0 st Hok Hne) as Hs.
        unfold handle_response in Hs. rewrite Es, Ej, Ee, Ed in Hs.
        cbn [Z.eqb Pos.eqb] in Hs. rewrite Hs in H.
        injection H as <- <-. now split.
      * unfold bind in H.
        destruct (header_or 1 (x_ratelimit_remaining r) <=? 1)%Z.
        -- rewrite (call_next_token_rotated _ Hne) in H. discriminate.
        -- discriminate.
  - destruct ((status_code r =? 403)%Z || (status_code r =? 429)%Z
              || mentions_rate_limit (text r)).
    + right. now apply Hrot with (reset := header_or 0 (x_ratelimit_reset r)).
    + destruct ((status_code r =? 500)%Z || (status_code r =? 502)%Z
                || (status_code r =? 503)%Z || (status_code r =? 504)%Z);
        [|discriminate].
      right. unfold bind, call_sleep in H.
      eexists. eexists. split; [exact H|]. split; reflexivity.
Qed.

(** A returning loop ends on a successful page: the last POST went out
    with the headers of the token then current, got a response that
    [is_success], and is followed by one rotation exactly when the
    response's remaining quota was low. *)
Lemma attempt_loop_return (q : string) (v : variables) (left : nat) :
  forall (a : nat) st (d : data) (st' : state R),
  attempt_loop q v left a st = (Return d, st') ->
  exists (t : TokenManager) (token : string) (r : response) (w : World R)
         (evs : list event),
    tokens t = tokens (tm st)
    /\ nth_error (tokens t) (index t) = Some token
    /\ fst (requests_post R w (post_request q v (bearer_headers token))) = Return r
    /\ is_success r d
    /\ log st' = log st ++ evs
                 ++ EvPost (post_request q v (bearer_headers token)) (Return r)
                    :: (if low_remaining r then [EvNextToken] else [])
    /\ tm st' = if low_remaining r then rotated t else t.
Proof.
  induction left as [|left IH]; intros a st d st' H; [discriminate|].
  destruct (nth_error (tokens (tm st)) (index (tm st))) as [token|] eqn:Etok.
  2: { cbn [attempt_loop] in H. unfold bind at 1 in H.
       unfold call_auth_headers, auth_headers, current_token in H.
       rewrite Etok in H. discriminate. }
  destruct (requests_post R (world st) (post_request q v (bearer_headers token)))
    as [res w1] eqn:Epost.
  rewrite (attempt_loop_S _ _ _ _ _ _ _ _ Etok Epost) in H. cbv zeta in H.
  destruct res as [r|e]; [|discriminate].
  assert (Hne : tokens (tm st) <> [])
    by apply in_range_nonempty, (token_in_range _ _ Etok).
  apply handle_response_return in H; [|exact Hne].
  destruct H as [[Hok Hst] | (st2 & evs & Hretry & Htoks & Hlog)].
  - exists (tm st), token, r, (world st), [].
    rewrite Epost.
    split; [reflexivity|]. split; [exact Etok|]. split; [reflexivity|].
    split; [exact Hok|]. subst st'.
    split; destruct (low_remaining r); cbn [log tm];
      rewrite <- ?app_assoc; reflexivity.
  - cbn [tm log] in Htoks, Hlog. apply IH in Hretry.
    destruct Hretry as (t & token' & r' & w & evs' & Ht & Hnth & Hp & Hok & Hl & Htm).
    exists t, token', r', w,
      (EvPost (post_request q v (bearer_headers token)) (Return r) :: evs ++ evs').
    split; [congruence|]. split; [exact Hnth|]. split; [exact Hp|].
    split; [exact Hok|]. split; [|exact Htm].
    rewrite Hl, Hlog. cbn [app]. rewrite <- !app_assoc. reflexivity.
Qed.

Lemma graphql_request_return (q : string) (v : variables) st (d : data)
  (st' : state R) :
  graphql_request q v st = (Return d, st') ->
  exists (t : TokenManager) (token : string) (r : response) (w : World R)
         (evs : list event),
    tokens t = tokens (tm st)
    /\ nth_error (tokens t) (index t) = Some token
    /\ fst (requests_post R w (post_request q v (bearer_headers token))) = Return r
    /\ is_success r d
    /\ log st' = log st ++ evs
                 ++ EvPost (post_request q v (bearer_headers token)) (Return r)
                    :: (if low_remaining r then [EvNextToken] else [])
    /\ tm st' = if low_remaining r then rotated t else t.
Proof. unfold graphql_request. apply attempt_loop_return. Qed.

Lemma next_index_differs (n i : nat) :
  2 <= n -> i < n -> (i + 1) mod n <> i.
Proof.
  intros Hn Hi. destruct (Nat.eq_dec (i + 1) n) as [E | E].
  - rewrite E, Nat.Div0.mod_same. lia.
  - rewrite Nat.mod_small; lia.
Qed.

(** C8 (as amended): a call that returns ends on a successful page; when
    that page reports a remaining quota of 1, the manager has moved from the
    index [i] of the token the last POST was sent with to [(i + 1) mod
    count] before the call returned, so the next call starts with the token
    at that index.  That token is another one when the manager holds at
    least two tokens and no token twice. *)
Theorem low_remaining_moves_to_next_token (q : string) (v : variables) st
  (d : data) (st' : state R) :
  graphql_request q v st = (Return d, st') ->
  exists (t : TokenManager) (token : string) (r : response) (evs : list event),
    tokens t = tokens (tm st)
    /\ nth_error (tokens t) (index t) = Some token
    /\ is_success r d
    /\ log st' = log st ++ evs
                 ++ EvPost (post_request q v (bearer_headers token)) (Return r)
                    :: (if low_remaining r then [EvNextToken] else [])
    /\ (x_ratelimit_remaining r = Some 1%Z ->
        tm st' = {| tokens := tokens t;
                    index := (index t + 1) mod List.length (tokens t) |}
        /\ exists token',
             current_token (tm st') = Return token'
             /\ auth_headers (tm st') = Return (bearer_headers token')
             /\ (NoDup (tokens t) -> 2 <= List.length (tokens t) ->
                 token' <> token)).
Proof.
  intros H. apply graphql_request_return in H.
  destruct H as (t & token & r & w & evs & Ht & Hnth & _ & Hok & Hlog & Htm).
  exists t, token, r, evs.
  split; [exact Ht|]. split; [exact Hnth|]. split; [exact Hok|].
  split; [exact Hlog|].
  intros Hrem. unfold low_remaining in Htm. rewrite Hrem in Htm. cbn in Htm.
  split; [exact Htm|].
  pose proof (token_in_range _ _ Hnth) as Hi.
  destruct (rotated_token t (in_range_nonempty _ Hi)) as [token' Hnth'].
  exists token'. rewrite Htm. fold (rotated t).
  split; [unfold current_token; now rewrite Hnth'|].
  split; [now apply auth_headers_at|].
  intros Hnodup Hlen Heq. subst token'. cbn [rotated tokens index] in Hnth'.
  apply (next_index_differs (List.length (tokens t)) (index t) Hlen Hi).
  apply (proj1 (NoDup_nth_error (tokens t)) Hnodup).
  - apply Nat.mod_upper_bound. lia.
  - congruence.
Qed.

Lemma idles_trans (w1 w2 w3 : World R) :
  idles w1 w2 -> idles w2 w3 -> idles w1 w3.
Proof.
  intros H12 H23. induction H23 as [|w2 w3 s H23 IH]; [exact H12|].
  apply idles_sleep. now apply IH.
Qed.

Lemma answers_idles (rs : list response) (w w' : World R) :
  answers rs w -> idles w w' -> answers rs w'.
Proof.
  destruct rs as [|r rs]; [trivial|].
  intros H Hi w1 req Hi1. apply H. now apply idles_trans with w'.
Qed.

(** One iteration that gets a successful page. *)
Lemma success_step (q : string) (v : variables) (left a : nat) st
  (token : string) (r : response) (d : data) (w' : World R) :
  nth_error (tokens (tm st)) (index (tm st)) = Some token ->
  requests_post R (world st) (post_request q v (bearer_headers token))
  = (Return r, w') ->
  is_success r d ->
  attempt_loop q v (S left) a st
  = (Return d,
     {| tm := if low_remaining r then rotated (tm st) else tm st;
        world := w';
        log := log st
               ++ EvPost (post_request q v (bearer_headers token)) (Return r)
                  :: (if low_remaining r then [EvNextToken] else []) |}).
Proof.
  intros Htok Hpost Hok.
  rewrite (attempt_loop_S _ _ _ _ _ _ _ _ Htok Hpost). cbv zeta.
  rewrite (handle_success _ _ _ d); cbn [tm];
    [| exact Hok | apply in_range_nonempty, (token_in_range _ _ Htok)].
  destruct (low_remaining r); cbn [log world tm];
    rewrite <- ?app_assoc; reflexivity.
Qed.

(** C10: an iteration that gets a successful page whose
    X-RateLimit-Remaining header is absent takes the remaining quota to be
    1: it returns the page's data and has advanced the token manager once,
    right after the POST.  This holds at every iteration of the loop, and so
    for the call whose first answer is such a page. *)
Theorem missing_remaining_header_rotates (q : string) (v : variables) st
  (token : string) (r : response) (d : data) (w' : World R) :
  nth_error (tokens (tm st)) (index (tm st)) = Some token ->
  requests_post R (world st) (post_request q v (bearer_headers token))
  = (Return r, w') ->
  is_success r d ->
  x_ratelimit_remaining r = None ->
  let st' :=
    {| tm := {| tokens := tokens (tm st);
                index := (index (tm st) + 1) mod List.length (tokens (tm st)) |};
       world := w';
       log := log st
              ++ [EvPost (post_request q v (bearer_headers token)) (Return r);
                  EvNextToken] |} in
  header_or 1 (x_ratelimit_remaining r) = 1%Z
  /\ (forall left a, attempt_loop q v (S left) a st = (Return d, st'))
  /\ graphql_request q v st = (Return d, st').
Proof.
  intros Htok Hpost Hok Hrem st'.
  assert (Hloop : forall left a, attempt_loop q v (S left) a st = (Return d, st')).
  { intros left a. rewrite (success_step _ _ _ _ _ _ _ _ _ Htok Hpost Hok).
    unfold low_remaining. rewrite Hrem. reflexivity. }
  split; [now rewrite Hrem|]. split; [exact Hloop|].
  unfold graphql_request, max_attempts_of.
  destruct (Nat.max 5 (List.length (tokens (tm st)) * 3)) as [|left] eqn:E; [lia|].
  apply Hloop.
Qed.

(** One iteration that is answered 403 or 429: one POST, one rotation,
    perhaps a sleep, and the loop goes on. *)
Lemma rate_limited_step (q : string) (v : variables) (left a : nat) st
  (token : string) (r : response) (rs : list response) :
  nth_error (tokens (tm st)) (index (tm st)) = Some token ->
  answers (r :: rs) (world st) ->
  status_code r = 403%Z \/ status_code r = 429%Z ->
  exists (st2 : state R) (evs : list event),
    attempt_loop q v (S left) a st = attempt_loop q v left (a + 1) st2
    /\ tm st2 = rotated (tm st)
    /\ answers rs (world st2)
    /\ log st2 = log st ++ evs
    /\ responses evs = [r]
    /\ List.length (posts evs) = 1
    /\ rotations evs = 1.
Proof.
  intros Htok Hans Hs.
  destruct (requests_post R (world st) (post_request q v (bearer_headers token)))
    as [res w1] eqn:Epost.
  destruct (Hans (world st) (post_request q v (bearer_headers token))
              (idles_refl _ _)) as [Hres Hrest].
  rewrite Epost in Hres, Hrest. cbn [fst snd] in Hres, Hrest. subst res.
  rewrite (attempt_loop_S _ _ _ _ _ _ _ _ Htok Epost). cbv zeta.
  rewrite (handle_rate_limited _ _ _ _ Hs).
  match goal with |- context [bind _ _ ?s] => set (st1 := s) end.
  assert (Hne : tokens (tm st1) <> [])
    by apply in_range_nonempty, (token_in_range _ _ Htok).
  destruct (rotate_and_maybe_wait_spec (header_or 0 (x_ratelimit_reset r)) st1 Hne)
    as (st2 & Hrun & Htm & Hidle & evs & Hlog & Hposts & Hrots & _).
  unfold bind. rewrite Hrun.
  exists st2,
    (EvPost (post_request q v (bearer_headers token)) (Return r)
     :: EvNextToken :: evs).
  split; [reflexivity|]. split; [exact Htm|].
  split; [now apply answers_idles with w1|].
  split; [rewrite Hlog; subst st1; cbn [log]; now rewrite <- app_assoc|].
  cbn. rewrite Hposts, Hrots.
  assert (Hresp : responses evs = []).
  { clear - Hposts. induction evs as [|[req res|s|] evs IH]; cbn in *;
      [reflexivity | discriminate | auto | auto]. }
  rewrite Hresp. now repeat split.
Qed.

(** C2 (as amended): when the next three answers are 429, 429 and a
    successful page, the call returns the page's data after exactly three
    POSTs; it has rotated twice when the page reports a remaining quota
    above 1, and three times when the quota is at most 1 or the header is
    absent. *)
Theorem two_429_then_success (q : string) (v : variables) st (token : string)
  (r1 r2 r3 : response) (d : data) :
  nth_error (tokens (tm st)) (index (tm st)) = Some token ->
  answers [r1; r2; r3] (world st) ->
  status_code r1 = 429%Z ->
  status_code r2 = 429%Z ->
  is_success r3 d ->
  exists (st' : state R) (evs : list event),
    graphql_request q v st = (Return d, st')
    /\ log st' = log st ++ evs
    /\ responses evs = [r1; r2; r3]
    /\ List.length (posts evs) = 3
    /\ rotations evs = if low_remaining r3 then 3 else 2.
Proof.
  intros Htok Hans H1 H2 H3. unfold graphql_request, max_attempts_of.
  destruct (Nat.max 5 (List.length (tokens (tm st)) * 3))
    as [|[|[|left]]] eqn:E; try lia.
  assert (Hne : tokens (tm st) <> [])
    by apply in_range_nonempty, (token_in_range _ _ Htok).
  destruct (rate_limited_step q v (S (S left)) 0 st token r1 [r2; r3]
              Htok Hans (or_intror H1))
    as (st1 & evs1 & Hrun1 & Htm1 & Hans1 & Hlog1 & Hr1 & Hp1 & Hrot1).
  destruct (rotated_token (tm st) Hne) as [token1 Htok1]. rewrite <- Htm1 in Htok1.
  destruct (rate_limited_step q v (S left) (0 + 1) st1 token1 r2 [r3]
              Htok1 Hans1 (or_intror H2))
    as (st2 & evs2 & Hrun2 & Htm2 & Hans2 & Hlog2 & Hr2 & Hp2 & Hrot2).
  assert (Hne1 : tokens (tm st1) <> []) by (rewrite Htm1; exact Hne).
  destruct (rotated_token (tm st1) Hne1) as [token2 Htok2]. rewrite <- Htm2 in Htok2.
  destruct (requests_post R (world st2) (post_request q v (bearer_headers token2)))
    as [res w3] eqn:Epost.
  destruct (Hans2 (world st2) (post_request q v (bearer_headers token2))
              (idles_refl _ _)) as [Hres _].
  rewrite Epost in Hres. cbn [fst] in Hres. subst res.
  rewrite Hrun1, Hrun2, (success_step _ _ _ _ _ _ _ _ _ Htok2 Epost H3).
  eexists. eexists. split; [reflexivity|]. cbn [log].
  rewrite Hlog2, Hlog1, <- !app_assoc.
  split; [reflexivity|].
  rewrite !responses_app, !posts_app, !length_app, !rotations_app.
  rewrite Hr1, Hr2, Hp1, Hp2, Hrot1, Hrot2.
  destruct (low_remaining r3); cbn; now repeat split.
Qed.

(** The loop under an endpoint that only ever answers with a transient
    status and never mentions the rate limit: every iteration left is used,
    each is one POST and one backoff, and the loop ends in the raise. *)
Lemma transient_loop (q : string) (v : variables) :
  (forall w req, exists r,
      fst (requests_post R w req) = Return r
      /\ transient_status (status_code r)
      /\ mentions_rate_limit (text r) = false) ->
  forall (left a : nat) st (token : string),
  nth_error (tokens (tm st)) (index (tm st)) = Some token ->
  exists (st' : state R) (rs : list response),
    attempt_loop q v left a st = (Raise AttemptsExhausted, st')
    /\ tm st' = tm st
    /\ List.length rs = left
    /\ log st' = log st
                 ++ failed_attempts (post_request q v (bearer_headers token))
                      (a + 1) rs.
Proof.
  intros Hall. induction left as [|left IH]; intros a st token Htok.
  - exists st, []. cbn. rewrite app_nil_r. now repeat split.
  - destruct (requests_post R (world st) (post_request q v (bearer_headers token)))
      as [res w1] eqn:Epost.
    destruct (Hall (world st) (post_request q v (bearer_headers token)))
      as (r & Hres & Hs & Hm).
    rewrite Epost in Hres. cbn [fst] in Hres. subst res.
    rewrite (attempt_loop_S _ _ _ _ _ _ _ _ Htok Epost). cbv zeta.
    rewrite (handle_transient _ _ _ _ Hs Hm). cbn [tm world log].
    match goal with |- context [attempt_loop q v left (a + 1) ?s] =>
      destruct (IH (a + 1) s token Htok) as (st' & rs & Hrun & Htm & Hlen & Hlog)
    end.
    exists st', (r :: rs). rewrite Hrun.
    split; [reflexivity|]. split; [exact Htm|]. split; [cbn; now rewrite Hlen|].
    rewrite Hlog. cbn [log failed_attempts].
    replace (a + 1 + 1) with (S (a + 1)) by lia.
    rewrite <- !app_assoc. reflexivity.
Qed.

(** C1 (as amended): when every answer carries a transient status (500,
    502, 503 or 504) and no body mentions the rate limit, the call raises
    the exhausted-attempts error after exactly [max(5, count * 3)] POSTs,
    each followed by a sleep of [5 + attempt * 2] seconds, with no rotation
    and the token manager as it was. *)
Theorem transient_errors_exhaust_attempts (q : string) (v : variables) st
  (token : string) :
  nth_error (tokens (tm st)) (index (tm st)) = Some token ->
  (forall w req, exists r,
      fst (requests_post R w req) = Return r
      /\ transient_status (status_code r)
      /\ mentions_rate_limit (text r) = false) ->
  exists (st' : state R) (rs : list response) (evs : list event),
    graphql_request q v st = (Raise AttemptsExhausted, st')
    /\ tm st' = tm st
    /\ log st' = log st ++ evs
    /\ evs = failed_attempts (post_request q v (bearer_headers token)) 1 rs
    /\ List.length (posts evs) = Nat.max 5 (List.length (tokens (tm st)) * 3)
    /\ sleeps evs
       = map (fun attempt => (5 + Z.of_nat attempt * 2)%Z)
           (seq 1 (Nat.max 5 (List.length (tokens (tm st)) * 3)))
    /\ rotations evs = 0.
Proof.
  intros Htok Hall. unfold graphql_request, max_attempts_of.
  destruct (transient_loop q v Hall
              (Nat.max 5 (List.length (tokens (tm st)) * 3)) 0 st token Htok)
    as (st' & rs & Hrun & Htm & Hlen & Hlog).
  exists st', rs, (failed_attempts (post_request q v (bearer_headers token)) 1 rs).
  split; [exact Hrun|]. split; [exact Htm|]. split; [exact Hlog|].
  split; [reflexivity|].
  rewrite failed_attempts_posts, failed_attempts_sleeps,
    failed_attempts_rotations, repeat_length, Hlen.
  now repeat split.
Qed.

End Request.

(** ** The pagination loop *)

Section Pagination.

Variable R : Runtime.
Variable PAGE_SIZE : Z.
Implicit Types (st : state R).

Lemma page_records_success (r : response) (d : data) :
  is_success r d -> page_records r = non_null (nodes (search d)).
Proof.
  intros [_ [p [Hj [_ Hd]]]]. unfold page_records. now rewrite Hj, Hd.
Qed.

(** One iteration of the pagination loop while records are still wanted:
    one [graphql_request] for [min(PAGE_SIZE, remaining)] records after
    [cursor], then the test for [break]. *)
Lemma fetch_loop_S (fuel : nat) (all_repos : list repository)
  (cursor : option string) (remaining : Z) st :
  (0 < remaining)%Z ->
  fetch_loop PAGE_SIZE (S fuel) all_repos cursor remaining st
  = match graphql_request GRAPHQL_QUERY
            {| searchQuery := REPOSITORY_SEARCH_QUERY;
               first := Z.min PAGE_SIZE remaining;
               after := cursor |} st with
    | (Raise e, st1) => Some (Raise e, st1)
    | (Return d, st1) =>
        let repos := non_null (nodes (search d)) in
        if negb (has_next_page (search d))
           || (remaining - Z.of_nat (List.length repos) <=? 0)%Z
        then Some (Return (all_repos ++ repos), st1)
        else fetch_loop PAGE_SIZE fuel (all_repos ++ repos)
               (end_cursor (search d))
               (remaining - Z.of_nat (List.length repos))
               {| tm := tm st1;
                  world := time_sleep R 1 (world st1);
                  log := log st1 ++ [EvSleep 1] |}
    end.
Proof.
  intros Hpos. cbn [fetch_loop].
  replace (remaining >? 0)%Z with true by (symmetry; apply Z.gtb_lt; lia).
  reflexivity.
Qed.

Lemma fetch_loop_done (fuel : nat) (all_repos : list repository)
  (cursor : option string) (remaining : Z) st :
  (remaining <= 0)%Z ->
  fetch_loop PAGE_SIZE fuel all_repos cursor remaining st
  = Some (Return all_repos, st).
Proof.
  intros Hle.
  assert (E : (remaining >? 0)%Z = false)
    by (destruct (remaining >? 0)%Z eqn:E; [apply Z.gtb_lt in E; lia | reflexivity]).
  destruct fuel; cbn [fetch_loop]; now rewrite E.
Qed.

(** The loop never returns more than it was still asked for, as long as
    no page holds more records than its request asked. *)
Lemma fetch_loop_length :
  (forall w req r d,
      fst (requests_post R w req) = Return r -> is_success r d ->
      (Z.of_nat (List.length (non_null (nodes (search d))))
       <= first (req_variables req))%Z) ->
  forall (fuel : nat) (all_repos : list repository) (cursor : option string)
         (remaining : Z) st (repos : list repository) (st' : state R),
  fetch_loop PAGE_SIZE fuel all_repos cursor remaining st
  = Some (Return repos, st') ->
  (Z.of_nat (List.length repos)
   <= Z.of_nat (List.length all_repos) + Z.max remaining 0)%Z.
Proof.
  intros Hle. induction fuel as [|fuel IH];
    intros all_repos cursor remaining st repos st' H.
  - destruct (Z_le_gt_dec remaining 0) as [Hr | Hr].
    + rewrite fetch_loop_done in H by exact Hr. injection H as <- <-. lia.
    + cbn [fetch_loop] in H.
      replace (remaining >? 0)%Z with true in H
        by (symmetry; apply Z.gtb_lt; lia).
      discriminate.
  - destruct (Z_le_gt_dec remaining 0) as [Hr | Hr].
    + rewrite fetch_loop_done in H by exact Hr. injection H as <- <-. lia.
    + rewrite fetch_loop_S in H by lia.
      destruct (graphql_request _ _ st) as [[d|e] st1] eqn:Ereq; [|discriminate].
      apply graphql_request_return in Ereq.
      destruct Ereq as (t & token & r & w & evs & _ & _ & Hpost & Hok & _).
      pose proof (Hle _ _ _ _ Hpost Hok) as Hlen. cbn [req_variables post_request first] in Hlen.
      cbv zeta in H.
      destruct (negb (has_next_page (search d))
                || (remaining - Z.of_nat (List.length (non_null (nodes (search d))))
                    <=? 0)%Z).
      * injection H as <- <-. rewrite length_app. lia.
      * apply IH in H. rewrite length_app in H. lia.
Qed.

(** C4: the list [fetch_top_repositories] returns is never longer than
    [max(limit, 0)] when no page holds more records than its request asked
    for; for [limit <= 0] it returns the empty list at once, the state (and
    with it the log of requests) untouched. *)
Theorem fetch_top_length_bound (fuel : nat) (limit : Z) st :
  (forall w req r d,
      fst (requests_post R w req) = Return r -> is_success r d ->
      (Z.of_nat (List.length (non_null (nodes (search d))))
       <= first (req_variables req))%Z) ->
  ((limit <= 0)%Z ->
   fetch_top_repositories PAGE_SIZE fuel limit st = Some (Return [], st))
  /\ (forall (repos : list repository) (st' : state R),
        fetch_top_repositories PAGE_SIZE fuel limit st = Some (Return repos, st') ->
        (Z.of_nat (List.length repos) <= Z.max limit 0)%Z).
Proof.
  intros Hle. unfold fetch_top_repositories. split.
  - intros Hl. apply Z.leb_le in Hl. now rewrite Hl.
  - intros repos st' H. destruct (limit <=? 0)%Z eqn:El.
    + injection H as <- <-. cbn. lia.
    + apply (fetch_loop_length Hle) in H. cbn [List.length] in H. lia.
Qed.

(** Enough fuel for what remains always ends the loop, as long as a page
    that says there is more holds at least one record. *)
Lemma fetch_loop_terminates :
  (forall w req r d,
      fst (requests_post R w req) = Return r -> is_success r d ->
      has_next_page (search d) = true ->
      1 <= List.length (non_null (nodes (search d)))) ->
  forall (fuel : nat) (all_repos : list repository) (cursor : option string)
         (remaining : Z) st,
  (remaining <= Z.of_nat fuel)%Z ->
  exists res, fetch_loop PAGE_SIZE fuel all_repos cursor remaining st = Some res.
Proof.
  intros Hprog. induction fuel as [|fuel IH];
    intros all_repos cursor remaining st Hfuel.
  - rewrite fetch_loop_done by lia. eauto.
  - destruct (Z_le_gt_dec remaining 0) as [Hr | Hr].
    + rewrite fetch_loop_done by exact Hr. eauto.
    + rewrite fetch_loop_S by lia.
      destruct (graphql_request _ _ st) as [[d|e] st1] eqn:Ereq; [|eauto].
      apply graphql_request_return in Ereq.
      destruct Ereq as (t & token & r & w & evs & _ & _ & Hpost & Hok & _).
      cbv zeta.
      destruct (has_next_page (search d)) eqn:Hnext; cbn [negb orb]; [|eauto].
      destruct (remaining - Z.of_nat (List.length (non_null (nodes (search d))))
                <=? 0)%Z; [eauto|].
      apply IH. pose proof (Hprog _ _ _ _ Hpost Hok Hnext). lia.
Qed.

(** C5 (as amended): for [limit > 0] the loop ends within [limit] pages,
    with a list or with the error of a failed request, as long as every
    successful page that reports [hasNextPage = true] holds at least one
    non-null record. *)
Theorem fetch_top_terminates (fuel : nat) (limit : Z) st :
  (0 < limit)%Z ->
  (forall w req r d,
      fst (requests_post R w req) = Return r -> is_success r d ->
      has_next_page (search d) = true ->
      1 <= List.length (non_null (nodes (search d)))) ->
  Z.to_nat limit <= fuel ->
  exists res, fetch_top_repositories PAGE_SIZE fuel limit st = Some res.
Proof.
  intros Hpos Hprog Hfuel. unfold fetch_top_repositories.
  destruct (limit <=? 0)%Z; [eauto|].
  apply (fetch_loop_terminates Hprog). lia.
Qed.

(** One page under an endpoint that always gives what is asked and always
    says there is more. *)
Lemma full_page_step :
  (forall w req, (0 <= first (req_variables req))%Z ->
     exists r d,
       fst (requests_post R w req) = Return r
       /\ is_success r d
       /\ Z.of_nat (List.length (non_null (nodes (search d))))
          = first (req_variables req)
       /\ has_next_page (search d) = true) ->
  forall (fuel : nat) (all_repos : list repository) (cursor : option string)
         (remaining batch : Z) st (token : string),
  nth_error (tokens (tm st)) (index (tm st)) = Some token ->
  (0 < remaining)%Z ->
  batch = Z.min PAGE_SIZE remaining ->
  (0 <= batch)%Z ->
  exists (r : response) (d : data) (st1 : state R) (req : request),
    is_success r d
    /\ first (req_variables req) = batch
    /\ Z.of_nat (List.length (page_records r)) = batch
    /\ log st1 = log st ++ EvPost req (Return r)
                           :: (if low_remaining r then [EvNextToken] else [])
    /\ (exists token1,
          nth_error (tokens (tm st1)) (index (tm st1)) = Some token1)
    /\ fetch_loop PAGE_SIZE (S fuel) all_repos cursor remaining st
       = if (remaining - batch <=? 0)%Z
         then Some (Return (all_repos ++ page_records r), st1)
         else fetch_loop PAGE_SIZE fuel (all_repos ++ page_records r)
                (end_cursor (search d)) (remaining - batch)
                {| tm := tm st1;
                   world := time_sleep R 1 (world st1);
                   log := log st1 ++ [EvSleep 1] |}.
Proof.
  intros Hfull fuel all_repos cursor remaining batch st token Htok Hpos Hbatch Hb.
  rewrite fetch_loop_S by exact Hpos. rewrite <- Hbatch.
  set (vars := {| searchQuery := REPOSITORY_SEARCH_QUERY;
                  first := batch; after := cursor |}).
  set (req := post_request GRAPHQL_QUERY vars (bearer_headers token)).
  destruct (requests_post R (world st) req) as [res w1] eqn:Epost.
  destruct (Hfull (world st) req Hb) as (r & d & Hres & Hok & Hlen & Hnext).
  rewrite Epost in Hres. cbn [fst] in Hres. subst res.
  cbn [req post_request req_variables vars first] in Hlen.
  unfold graphql_request, max_attempts_of.
  destruct (Nat.max 5 (List.length (tokens (tm st)) * 3)) as [|left] eqn:E; [lia|].
  rewrite (success_step _ _ _ _ _ _ _ _ _ _ Htok Epost Hok).
  cbv zeta. rewrite Hnext, Hlen. cbn [negb orb].
  exists r, d,
    {| tm := if low_remaining r then rotated (tm st) else tm st;
       world := w1;
       log := log st ++ EvPost req (Return r)
                        :: (if low_remaining r then [EvNextToken] else []) |},
    req.
  rewrite (page_records_success _ _ Hok).
  split; [exact Hok|]. split; [reflexivity|]. split; [exact Hlen|].
  split; [cbn [log]; reflexivity|].
  split; [|reflexivity].
  cbn [tm]. destruct (low_remaining r); [|eauto].
  apply rotated_token, in_range_nonempty, (token_in_range _ _ Htok).
Qed.

End Pagination.

Arguments full_page_step {R} PAGE_SIZE _ fuel all_repos cursor remaining batch st token.

Lemma posts_rotation (b : bool) :
  posts (if b then [EvNextToken] else []) = [].
Proof. now destruct b. Qed.

Lemma responses_rotation (b : bool) :
  responses (if b then [EvNextToken] else []) = [].
Proof. now destruct b. Qed.

(** C3: with a page size of 10 and a limit of 25, under an endpoint that
    answers every request with exactly the number of non-null records asked
    for and [hasNextPage = true], [fetch_top_repositories] sends exactly
    three requests, asking for 10, 10 and 5 records in this order, and
    returns the 25 records of the three pages, in the order the pages
    came. *)
Theorem fetch_25_by_pages_of_10 (R : Runtime) (fuel : nat) (st : state R)
  (token : string) :
  nth_error (tokens (tm st)) (index (tm st)) = Some token ->
  (forall w req, (0 <= first (req_variables req))%Z ->
     exists r d,
       fst (requests_post R w req) = Return r
       /\ is_success r d
       /\ Z.of_nat (List.length (non_null (nodes (search d))))
          = first (req_variables req)
       /\ has_next_page (search d) = true) ->
  3 <= fuel ->
  exists (st' : state R) (evs : list event) (repos : list repository),
    fetch_top_repositories 10 fuel 25 st = Some (Return repos, st')
    /\ log st' = log st ++ evs
    /\ map (fun req => first (req_variables req)) (posts evs) = [10; 10; 5]%Z
    /\ repos = List.concat (map page_records (responses evs))
    /\ List.length repos = 25.
Proof.
  intros Htok Hfull Hfuel.
  destruct fuel as [|[|[|fuel]]]; try lia.
  unfold fetch_top_repositories. change (25 <=? 0)%Z with false. cbv iota.
  destruct (full_page_step 10 Hfull (S (S fuel)) [] None 25 10 st token Htok)
    as (r1 & d1 & st1 & req1 & _ & Hq1 & Hn1 & Hlog1 & [token1 Htok1] & Hrun1);
    try reflexivity; try lia.
  change (25 - 10 <=? 0)%Z with false in Hrun1.
  change (25 - 10)%Z with 15%Z in Hrun1. cbv iota in Hrun1.
  rewrite Hrun1; clear Hrun1.
  match goal with |- context [fetch_loop 10 _ ?all ?cur 15 ?s] =>
    destruct (full_page_step 10 Hfull (S fuel) all cur 15 10 s token1 Htok1)
      as (r2 & d2 & st2 & req2 & _ & Hq2 & Hn2 & Hlog2 & [token2 Htok2] & Hrun2);
      try reflexivity; try lia
  end.
  change (15 - 10 <=? 0)%Z with false in Hrun2.
  change (15 - 10)%Z with 5%Z in Hrun2. cbv iota in Hrun2.
  rewrite Hrun2; clear Hrun2.
  match goal with |- context [fetch_loop 10 _ ?all ?cur 5 ?s] =>
    destruct (full_page_step 10 Hfull fuel all cur 5 5 s token2 Htok2)
      as (r3 & d3 & st3 & req3 & _ & Hq3 & Hn3 & Hlog3 & _ & Hrun3);
      try reflexivity; try lia
  end.
  change (5 - 5 <=? 0)%Z with true in Hrun3. cbv iota in Hrun3.
  rewrite Hrun3; clear Hrun3.
  cbn [log] in Hlog2, Hlog3.
  eexists st3, _, _. split; [reflexivity|].
  split; [rewrite Hlog3, Hlog2, Hlog1, <- !app_assoc; reflexivity|].
  cbn [app].
  repeat (rewrite ?posts_app, ?responses_app; cbn [posts responses app]).
  rewrite !posts_rotation, !responses_rotation. cbn [app map List.concat].
  rewrite Hq1, Hq2, Hq3, app_nil_r, !length_app.
  split; [reflexivity|]. split; [now rewrite <- app_assoc|]. lia.
Qed.

(** ** Runs against the simulated endpoints *)

Lemma scripted_idles_counter (script : nat -> request -> outcome response)
  (w w' : World (scripted script)) :
  idles w w' -> fst w' = fst w.
Proof. induction 1 as [|w w' s H IH]; [reflexivity | exact IH]. Qed.

Lemma non_null_map_Some {A} (f : A -> repository) (l : list A) :
  non_null (map (fun i => Some (f i)) l) = map f l.
Proof. induction l as [|x l IH]; cbn; [|rewrite IH]; reflexivity. Qed.

Lemma sample_page_length (from n : nat) (more : bool) :
  List.length (non_null (nodes (search (sample_page from n more)))) = n.
Proof. cbn. now rewrite non_null_map_Some, length_map, length_seq. Qed.

Lemma success_response_is_success (remaining : option Z) (d0 d : data) :
  is_success (success_response remaining d0) d -> d = d0.
Proof. intros [_ [p [Hj [_ Hd]]]]. cbn in Hj. injection Hj as <-. cbn in Hd. congruence. Qed.

Lemma is_success_success_response (remaining : option Z) (d : data) :
  is_success (success_response remaining d) d.
Proof. split; [reflexivity|]. eexists. now repeat split. Qed.

Lemma errors_response_not_success (errs : string) (d : data) :
  ~ is_success (errors_response errs) d.
Proof. intros [_ [p [Hj [He _]]]]. cbn in Hj. injection Hj as <-. discriminate. Qed.

(** C1, the claim as first stated: every answer is a 502, yet the body
    mentions the rate limit, so each of the six attempts rotates the token
    and none backs off. *)
Lemma rate_limited_502_rotates_without_backoff :
  let out := graphql_request GRAPHQL_QUERY first_ten
               (start always_502_rate_limited ["ghp_a"; "ghp_b"]) in
  map status_code (responses (log (snd out)))
  = [502; 502; 502; 502; 502; 502]%Z
  /\ fst out = Raise AttemptsExhausted
  /\ rotations (log (snd out)) = 6
  /\ sleeps (log (snd out)) = [].
Proof. vm_compute. now repeat split. Qed.

Lemma transient_errors_exhaust_attempts_witness :
  exists (st' : state (scripted always_502)) (rs : list response)
         (evs : list event),
    graphql_request GRAPHQL_QUERY first_ten (start always_502 ["ghp_a"; "ghp_b"])
    = (Raise AttemptsExhausted, st')
    /\ tm st' = tm (start always_502 ["ghp_a"; "ghp_b"])
    /\ log st' = log (start always_502 ["ghp_a"; "ghp_b"]) ++ evs
    /\ evs = failed_attempts
               (post_request GRAPHQL_QUERY first_ten (bearer_headers "ghp_a")) 1 rs
    /\ List.length (posts evs) = Nat.max 5 (2 * 3)
    /\ sleeps evs
       = map (fun attempt => (5 + Z.of_nat attempt * 2)%Z) (seq 1 (Nat.max 5 (2 * 3)))
    /\ rotations evs = 0.
Proof.
  apply (transient_errors_exhaust_attempts (scripted always_502) GRAPHQL_QUERY
           first_ten (start always_502 ["ghp_a"; "ghp_b"]) "ghp_a").
  - reflexivity.
  - intros w req. eexists. split; [reflexivity|].
    split; [right; left; reflexivity | reflexivity].
Defined.

(** C2, the claim as first stated: 429, 429, then a success without the
    remaining header; the call returns the page and has rotated three
    times, not twice. *)
Lemma two_429_then_success_rotates_thrice :
  let out := graphql_request GRAPHQL_QUERY first_ten
               (start (twice_429_then_success None) ["ghp_a"; "ghp_b"; "ghp_c"]) in
  map status_code (responses (log (snd out))) = [429; 429; 200]%Z
  /\ fst out = Return (sample_page 0 3 false)
  /\ rotations (log (snd out)) = 3.
Proof. vm_compute. now repeat split. Qed.

Lemma twice_429_then_success_answers (remaining : option Z)
  (toks : list string) :
  answers [status_response 429 "Too Many Requests";
           status_response 429 "Too Many Requests";
           success_response remaining (sample_page 0 3 false)]
    (world (start (twice_429_then_success remaining) toks)).
Proof.
  cbn [start world].
  intros [n1 t1] req1 H1. apply scripted_idles_counter in H1. cbn in H1. subst n1.
  split; [reflexivity|].
  intros [n2 t2] req2 H2. apply scripted_idles_counter in H2. cbn in H2. subst n2.
  split; [reflexivity|].
  intros [n3 t3] req3 H3. apply scripted_idles_counter in H3. cbn in H3. subst n3.
  split; [reflexivity | exact I].
Qed.

Lemma two_429_then_success_witness :
  exists (st' : state (scripted (twice_429_then_success (Some 4999%Z))))
         (evs : list event),
    graphql_request GRAPHQL_QUERY first_ten
      (start (twice_429_then_success (Some 4999%Z)) ["ghp_a"; "ghp_b"; "ghp_c"])
    = (Return (sample_page 0 3 false), st')
    /\ log st' = [] ++ evs
    /\ responses evs = [status_response 429 "Too Many Requests";
                        status_response 429 "Too Many Requests";
                        success_response (Some 4999%Z) (sample_page 0 3 false)]
    /\ List.length (posts evs) = 3
    /\ rotations evs = 2.
Proof.
  apply (two_429_then_success (scripted (twice_429_then_success (Some 4999%Z)))
           GRAPHQL_QUERY first_ten
           (start (twice_429_then_success (Some 4999%Z)) ["ghp_a"; "ghp_b"; "ghp_c"])
           "ghp_a").
  - reflexivity.
  - apply twice_429_then_success_answers.
  - reflexivity.
  - reflexivity.
  - apply is_success_success_response.
Defined.

Lemma graphql_error_not_retried_witness :
  (forall left a,
      attempt_loop GRAPHQL_QUERY first_ten (S left) a
        (start bad_syntax ["ghp_a"; "ghp_b"])
      = (Raise (GraphQLError "[{'message': 'Bad syntax'}]"),
         @Build_state (scripted bad_syntax)
           {| tokens := ["ghp_a"; "ghp_b"]; index := 0 |}
           (1, 1700000000%Z)
           ([] ++ [EvPost (post_request GRAPHQL_QUERY first_ten
                             (bearer_headers "ghp_a"))
                     (Return (errors_response "[{'message': 'Bad syntax'}]"))])))
  /\ graphql_request GRAPHQL_QUERY first_ten (start bad_syntax ["ghp_a"; "ghp_b"])
     = (Raise (GraphQLError "[{'message': 'Bad syntax'}]"),
        @Build_state (scripted bad_syntax)
          {| tokens := ["ghp_a"; "ghp_b"]; index := 0 |}
          (1, 1700000000%Z)
          ([] ++ [EvPost (post_request GRAPHQL_QUERY first_ten
                            (bearer_headers "ghp_a"))
                    (Return (errors_response "[{'message': 'Bad syntax'}]"))])).
Proof.
  apply (graphql_error_not_retried (scripted bad_syntax) GRAPHQL_QUERY first_ten
           (start bad_syntax ["ghp_a"; "ghp_b"]) "ghp_a"
           (errors_response "[{'message': 'Bad syntax'}]")
           {| errors := Some "[{'message': 'Bad syntax'}]"; payload_data := None |}
           "[{'message': 'Bad syntax'}]" (1, 1700000000%Z));
    reflexivity.
Defined.

Lemma missing_remaining_header_rotates_witness :
  header_or 1 (x_ratelimit_remaining (success_response None (sample_page 0 1 false)))
  = 1%Z
  /\ (forall left a,
        attempt_loop GRAPHQL_QUERY first_ten (S left) a
          (start (one_record None) ["ghp_a"; "ghp_b"])
        = (Return (sample_page 0 1 false),
           @Build_state (scripted (one_record None))
             {| tokens := ["ghp_a"; "ghp_b"]; index := (0 + 1) mod 2 |}
             (1, 1700000000%Z)
             ([] ++ [EvPost (post_request GRAPHQL_QUERY first_ten
                               (bearer_headers "ghp_a"))
                       (Return (success_response None (sample_page 0 1 false)));
                     EvNextToken])))
  /\ graphql_request GRAPHQL_QUERY first_ten
       (start (one_record None) ["ghp_a"; "ghp_b"])
     = (Return (sample_page 0 1 false),
        @Build_state (scripted (one_record None))
          {| tokens := ["ghp_a"; "ghp_b"]; index := (0 + 1) mod 2 |}
          (1, 1700000000%Z)
          ([] ++ [EvPost (post_request GRAPHQL_QUERY first_ten
                            (bearer_headers "ghp_a"))
                    (Return (success_response None (sample_page 0 1 false)));
                  EvNextToken])).
Proof.
  apply (missing_remaining_header_rotates (scripted (one_record None))
           GRAPHQL_QUERY first_ten (start (one_record None) ["ghp_a"; "ghp_b"])
           "ghp_a" (success_response None (sample_page 0 1 false))
           (sample_page 0 1 false) (1, 1700000000%Z)).
  - reflexivity.
  - reflexivity.
  - apply is_success_success_response.
  - reflexivity.
Defined.

(** C8, the claim as first stated: a manager with a single token, a
    success that reports a remaining quota of 1.  The manager rotates, and
    the next call goes out with the very same token. *)
Lemma single_token_is_used_again :
  let st0 := start (one_record (Some 1%Z)) ["ghp_only"] in
  let out1 := graphql_request GRAPHQL_QUERY first_ten st0 in
  let out2 := graphql_request GRAPHQL_QUERY first_ten (snd out1) in
  fst out1 = Return (sample_page 0 1 false)
  /\ map x_ratelimit_remaining (responses (log (snd out1))) = [Some 1%Z]
  /\ rotations (log (snd out1)) = 1
  /\ map req_headers (posts (log (snd out2)))
     = [bearer_headers "ghp_only"; bearer_headers "ghp_only"].
Proof. vm_compute. now repeat split. Qed.

Lemma low_remaining_moves_to_next_token_witness :
  let st0 := start (one_record (Some 1%Z)) ["ghp_a"; "ghp_b"] in
  let st' := snd (graphql_request GRAPHQL_QUERY first_ten st0) in
  exists (t : TokenManager) (token : string) (r : response) (evs : list event),
    tokens t = tokens (tm st0)
    /\ nth_error (tokens t) (index t) = Some token
    /\ is_success r (sample_page 0 1 false)
    /\ log st' = log st0 ++ evs
                 ++ EvPost (post_request GRAPHQL_QUERY first_ten
                              (bearer_headers token)) (Return r)
                    :: (if low_remaining r then [EvNextToken] else [])
    /\ (x_ratelimit_remaining r = Some 1%Z ->
        tm st' = {| tokens := tokens t;
                    index := (index t + 1) mod List.length (tokens t) |}
        /\ exists token',
             current_token (tm st') = Return token'
             /\ auth_headers (tm st') = Return (bearer_headers token')
             /\ (NoDup (tokens t) -> 2 <= List.length (tokens t) ->
                 token' <> token)).
Proof.
  cbv zeta.
  apply (low_remaining_moves_to_next_token (scripted (one_record (Some 1%Z)))
           GRAPHQL_QUERY first_ten
           (start (one_record (Some 1%Z)) ["ghp_a"; "ghp_b"])).
  vm_compute. reflexivity.
Defined.

(** ** Whole collections against the simulated endpoints *)

Lemma full_pages_exact :
  forall (w : World (scripted full_pages)) (req : request),
  (0 <= first (req_variables req))%Z ->
  exists r d,
    fst (requests_post (scripted full_pages) w req) = Return r
    /\ is_success r d
    /\ Z.of_nat (List.length (non_null (nodes (search d))))
       = first (req_variables req)
    /\ has_next_page (search d) = true.
Proof.
  intros w req Hpos. cbn [scripted requests_post fst]. unfold full_pages.
  replace (first (req_variables req) <? 0)%Z with false
    by (symmetry; apply Z.ltb_ge; exact Hpos).
  eexists. eexists. split; [reflexivity|].
  split; [apply is_success_success_response|].
  rewrite sample_page_length. split; [now apply Z2Nat.id | reflexivity].
Qed.

Lemma full_pages_bounded :
  forall (w : World (scripted full_pages)) (req : request) (r : response)
         (d : data),
  fst (requests_post (scripted full_pages) w req) = Return r ->
  is_success r d ->
  (Z.of_nat (List.length (non_null (nodes (search d))))
   <= first (req_variables req))%Z.
Proof.
  intros w req r d Hres Hok. cbn [scripted requests_post fst] in Hres.
  unfold full_pages in Hres.
  destruct (first (req_variables req) <? 0)%Z eqn:Eneg; injection Hres as <-.
  - now apply errors_response_not_success in Hok.
  - apply success_response_is_success in Hok. subst d.
    rewrite sample_page_length. apply Z.ltb_ge in Eneg. rewrite Z2Nat.id; lia.
Qed.

Lemma fetch_25_by_pages_of_10_witness :
  exists (st' : state (scripted full_pages)) (evs : list event)
         (repos : list repository),
    fetch_top_repositories 10 3 25 (start full_pages ["ghp_a"; "ghp_b"])
    = Some (Return repos, st')
    /\ log st' = [] ++ evs
    /\ map (fun req => first (req_variables req)) (posts evs) = [10; 10; 5]%Z
    /\ repos = List.concat (map page_records (responses evs))
    /\ List.length repos = 25.
Proof.
  apply (fetch_25_by_pages_of_10 (scripted full_pages) 3
           (start full_pages ["ghp_a"; "ghp_b"]) "ghp_a").
  - reflexivity.
  - exact full_pages_exact.
  - lia.
Defined.

Example fetch_25_by_pages_of_10_run :
  match fetch_top_repositories 10 3 25 (start full_pages ["ghp_a"; "ghp_b"]) with
  | Some (Return repos, st') =>
      map stargazerCount repos
      = map Z.of_nat (seq 0 10 ++ seq 100 10 ++ seq 200 5)
      /\ sleeps (log st') = [1; 1]%Z
      /\ map (fun req => after (req_variables req)) (posts (log st'))
         = [None; Some "Y3Vyc29y"; Some "Y3Vyc29y"]
  | _ => False
  end.
Proof. vm_compute. now repeat split. Qed.

Lemma fetch_top_length_bound_witness :
  (exists (repos : list repository) (st' : state (scripted full_pages)),
     fetch_top_repositories 10 3 25 (start full_pages ["ghp_a"])
     = Some (Return repos, st')
     /\ List.length repos = 25
     /\ (Z.of_nat (List.length repos) <= Z.max 25 0)%Z)
  /\ (exists (repos : list repository) (st' : state (scripted full_pages)),
        fetch_top_repositories 10 1 7 (start full_pages ["ghp_a"])
        = Some (Return repos, st')
        /\ List.length repos = 7
        /\ (Z.of_nat (List.length repos) <= Z.max 7 0)%Z)
  /\ fetch_top_repositories 10 7 0 (start full_pages ["ghp_a"])
     = Some (Return [], start full_pages ["ghp_a"]).
Proof.
  split; [|split].
  - destruct (fetch_top_length_bound (scripted full_pages) 10 3 25
                (start full_pages ["ghp_a"]) full_pages_bounded) as [_ Hbound].
    assert (Hrun : match fetch_top_repositories 10 3 25
                           (start full_pages ["ghp_a"]) with
                   | Some (Return repos, _) => List.length repos = 25
                   | _ => False
                   end) by (vm_compute; reflexivity).
    destruct (fetch_top_repositories 10 3 25 (start full_pages ["ghp_a"]))
      as [[[repos|e] st']|]; try contradiction.
    exists repos, st'. split; [reflexivity|]. split; [exact Hrun|].
    exact (Hbound repos st' eq_refl).
  - destruct (fetch_top_length_bound (scripted full_pages) 10 1 7
                (start full_pages ["ghp_a"]) full_pages_bounded) as [_ Hbound].
    assert (Hrun : match fetch_top_repositories 10 1 7
                           (start full_pages ["ghp_a"]) with
                   | Some (Return repos, _) => List.length repos = 7
                   | _ => False
                   end) by (vm_compute; reflexivity).
    destruct (fetch_top_repositories 10 1 7 (start full_pages ["ghp_a"]))
      as [[[repos|e] st']|]; try contradiction.
    exists repos, st'. split; [reflexivity|]. split; [exact Hrun|].
    exact (Hbound repos st' eq_refl).
  - apply (fetch_top_length_bound (scripted full_pages) 10 7 0
             (start full_pages ["ghp_a"]) full_pages_bounded).
    lia.
Defined.

Lemma single_pages_progress :
  forall (w : World (scripted single_pages)) (req : request) (r : response)
         (d : data),
  fst (requests_post (scripted single_pages) w req) = Return r ->
  is_success r d ->
  has_next_page (search d) = true ->
  1 <= List.length (non_null (nodes (search d))).
Proof.
  intros w req r d Hres Hok _. cbn [scripted requests_post fst] in Hres.
  unfold single_pages in Hres. injection Hres as <-.
  apply success_response_is_success in Hok. subst d.
  now rewrite sample_page_length.
Qed.

Lemma fetch_top_terminates_witness :
  exists res,
    fetch_top_repositories 10 3 3 (start single_pages ["ghp_a"]) = Some res.
Proof.
  apply (fetch_top_terminates (scripted single_pages) 10 3 3
           (start single_pages ["ghp_a"])).
  - lia.
  - exact single_pages_progress.
  - cbn. lia.
Defined.

(** Under the endpoint of empty pages one page is like the next: the same
    single record is still wanted, and the token manager has not moved. *)
Lemma empty_pages_loop (fuel : nat) :
  forall (all_repos : list repository) (cursor : option string)
         (st : state (scripted empty_pages)),
  tm st = {| tokens := ["ghp_a"]; index := 0 |} ->
  fetch_loop 10 fuel all_repos cursor 1 st = None.
Proof.
  induction fuel as [|fuel IH]; intros all_repos cursor st Htm; [reflexivity|].
  rewrite fetch_loop_S by lia.
  unfold graphql_request, max_attempts_of. rewrite Htm.
  change (Nat.max 5 (List.length (tokens {| tokens := ["ghp_a"]; index := 0 |}) * 3))
    with 5.
  rewrite (success_step (scripted empty_pages) _ _ _ _ st "ghp_a"
             (success_response (Some 4999%Z) (sample_page 0 0 true))
             (sample_page 0 0 true)
             (S (fst (world st)), snd (world st)));
    [| now rewrite Htm | reflexivity | apply is_success_success_response].
  cbv zeta. change (low_remaining _) with false. cbv iota.
  change (negb (has_next_page (search (sample_page 0 0 true)))
          || (1 - Z.of_nat (List.length (non_null (nodes (search (sample_page 0 0 true)))))
              <=? 0)%Z) with false.
  cbv iota. apply IH. exact Htm.
Qed.

(** C5, the claim as first stated: every answer is a successful page, empty
    and with [hasNextPage = true]; no amount of fuel ends the loop for a
    limit of 1. *)
Lemma empty_pages_never_end :
  (forall n req, exists r d,
      empty_pages n req = Return r /\ is_success r d
      /\ non_null (nodes (search d)) = []
      /\ has_next_page (search d) = true)
  /\ ~ (exists fuel res,
          fetch_top_repositories 10 fuel 1 (start empty_pages ["ghp_a"])
          = Some res).
Proof.
  split.
  - intros n req. eexists. eexists. split; [reflexivity|].
    split; [apply is_success_success_response | now split].
  - intros [fuel [res H]]. unfold fetch_top_repositories in H.
    change (1 <=? 0)%Z with false in H. cbv iota in H.
    rewrite empty_pages_loop in H by reflexivity. discriminate.
Qed.

(** Two distinct tokens, a success that reports a remaining quota of 1: the
    next call goes out with the other token. *)
Example two_tokens_next_call_uses_the_other :
  let st0 := start (one_record (Some 1%Z)) ["ghp_a"; "ghp_b"] in
  let out1 := graphql_request GRAPHQL_QUERY first_ten st0 in
  let out2 := graphql_request GRAPHQL_QUERY first_ten (snd out1) in
  map x_ratelimit_remaining (responses (log (snd out1))) = [Some 1%Z]
  /\ tm (snd out1) = {| tokens := ["ghp_a"; "ghp_b"]; index := 1 |}
  /\ map req_headers (posts (log (snd out2)))
     = [bearer_headers "ghp_a"; bearer_headers "ghp_b"].
Proof. vm_compute. now repeat split. Qed.

(** * More of the client *)

(** ** What any run of the retry loop looks like *)

Lemma posts_nil_responses (evs : list event) :
  posts evs = [] -> responses evs = [].
Proof.
  induction evs as [|[req res|s|] evs IH]; cbn; [reflexivity | discriminate | auto | auto].
Qed.

Lemma success_data_is_success (r : response) (d : data) :
  success_data r = Some d <-> is_success r d.
Proof.
  unfold success_data, is_success. split.
  - destruct (status_code r =? 200)%Z eqn:Es; [|discriminate].
    apply Z.eqb_eq in Es.
    destruct (json r) as [p|]; [|discriminate].
    destruct (errors p) eqn:Ee; [discriminate|].
    intros Hd. split; [exact Es|]. now exists p.
  - intros [Hs [p [Hj [He Hd]]]]. now rewrite Hs, Hj, He.
Qed.

Lemma sleeps_rotation (b : bool) :
  sleeps (if b then [EvNextToken] else []) = [].
Proof. now destruct b. Qed.

Lemma rotations_rotation (b : bool) :
  rotations (if b then [EvNextToken] else []) <= 1.
Proof. destruct b; cbn; lia. Qed.

Section RequestShape.

Variable R : Runtime.
Implicit Types (st : state R).

(** Whatever the response, [handle_response] first does some bookkeeping
    (at most one rotation, sleeps of at least a second, no POST), and then
    either ends the call or hands over to the rest of the loop.  It ends
    with a value exactly on a response that has [success_data]. *)
Lemma handle_response_shape (retry : M R data) (a : nat) (r : response) st
  (o : outcome data) (st' : state R) :
  tokens (tm st) <> [] ->
  handle_response retry a r st = (o, st') ->
  exists (st2 : state R) (evs1 : list event),
    tokens (tm st2) = tokens (tm st)
    /\ (index (tm st) < List.length (tokens (tm st)) ->
        index (tm st2) < List.length (tokens (tm st2)))
    /\ log st2 = log st ++ evs1
    /\ posts evs1 = []
    /\ rotations evs1 <= 1
    /\ Forall (fun s => (1 <= s)%Z) (sleeps evs1)
    /\ ((st' = st2
         /\ match o with
            | Return d =>
                success_data r = Some d
                /\ evs1 = (if low_remaining r then [EvNextToken] else [])
            | Raise _ => success_data r = None
            end)
        \/ (success_data r = None /\ retry st2 = (o, st'))).
Proof.
  intros Hne H.
  assert (Hstay : forall o0 : outcome data,
             match o0 with
             | Return d => False
             | Raise _ => success_data r = None
             end ->
             (o0, st) = (o, st') ->
             exists (st2 : state R) (evs1 : list event),
               tokens (tm st2) = tokens (tm st)
               /\ (index (tm st) < List.length (tokens (tm st)) ->
                   index (tm st2) < List.length (tokens (tm st2)))
               /\ log st2 = log st ++ evs1
               /\ posts evs1 = []
               /\ rotations evs1 <= 1
               /\ Forall (fun s => (1 <= s)%Z) (sleeps evs1)
               /\ ((st' = st2
                    /\ match o with
                       | Return d =>
                           success_data r = Some d
                           /\ evs1 = (if low_remaining r then [EvNextToken] else [])
                       | Raise _ => success_data r = None
                       end)
                   \/ (success_data r = None /\ retry st2 = (o, st')))).
  { intros o0 Ho0 E. injection E as <- <-. exists st, [].
    rewrite app_nil_r. repeat split; auto.
    left. split; [reflexivity|]. destruct o0; [contradiction | exact Ho0]. }
  assert (Hrot : forall reset,
             success_data r = None ->
             bind (rotate_and_maybe_wait reset) (fun _ => retry) st = (o, st') ->
             exists (st2 : state R) (evs1 : list event),
               tokens (tm st2) = tokens (tm st)
               /\ (index (tm st) < List.length (tokens (tm st)) ->
                   index (tm st2) < List.length (tokens (tm st2)))
               /\ log st2 = log st ++ evs1
               /\ posts evs1 = []
               /\ rotations evs1 <= 1
               /\ Forall (fun s => (1 <= s)%Z) (sleeps evs1)
               /\ ((st' = st2
                    /\ match o with
                       | Return d =>
                           success_data r = Some d
                           /\ evs1 = (if low_remaining r then [EvNextToken] else [])
                       | Raise _ => success_data r = None
                       end)
                   \/ (success_data r = None /\ retry st2 = (o, st')))).
  { intros reset Hnone Hb.
    destruct (rotate_and_maybe_wait_spec R reset st Hne)
      as (st2 & Hrun & Htm & _ & evs & Hlog & Hposts & Hrots & Hsleeps).
    unfold bind in Hb. rewrite Hrun in Hb.
    exists st2, (EvNextToken :: evs). rewrite Htm.
    split; [reflexivity|].
    split; [intros _; now apply rotated_in_range|].
    split; [exact Hlog|]. cbn. rewrite Hrots, Hsleeps.
    split; [exact Hposts|]. split; [lia|].
    split; [|right; now split].
    destruct ((index (rotated (tm st)) =? 0)%nat && (0 <? reset)%Z);
      [constructor; [lia | constructor] | constructor]. }
  unfold handle_response in H. unfold success_data in Hstay, Hrot |- *.
  destruct (status_code r =? 200)%Z eqn:Es.
  - destruct (json r) as [p|] eqn:Ej.
    2: { now apply (Hstay (Raise JSONDecodeError)). }
    destruct (errors p) as [errs|] eqn:Ee.
    + destruct (mentions_rate_limit errs).
      * now apply Hrot with (reset := header_or 0 (x_ratelimit_reset r)).
      * now apply (Hstay (Raise (GraphQLError errs))).
    + unfold bind in H. unfold low_remaining.
      destruct (header_or 1 (x_ratelimit_remaining r) <=? 1)%Z.
      * rewrite (call_next_token_rotated _ _ Hne) in H.
        exists {| tm := rotated (tm st); world := world st;
                  log := log st ++ [EvNextToken] |}, [EvNextToken].
        split; [|split; [|split; [reflexivity|]]].
        -- reflexivity.
        -- intros _. now apply rotated_in_range.
        -- cbn. split; [reflexivity|]. split; [lia|]. split; [constructor|].
           left. destruct (payload_data p) as [d0|];
             injection H as <- <-; now repeat split.
      * exists st, []. rewrite app_nil_r.
        split; [reflexivity|]. split; [auto|]. split; [reflexivity|].
        cbn. split; [reflexivity|]. split; [lia|]. split; [constructor|].
        left. destruct (payload_data p) as [d0|];
          injection H as <- <-; now repeat split.
  - destruct ((status_code r =? 403)%Z || (status_code r =? 429)%Z
              || mentions_rate_limit (text r)).
    + now apply Hrot with (reset := header_or 0 (x_ratelimit_reset r)).
    + destruct ((status_code r =? 500)%Z || (status_code r =? 502)%Z
                || (status_code r =? 503)%Z || (status_code r =? 504)%Z).
      * unfold bind, call_sleep in H.
        exists {| tm := tm st;
                  world := time_sleep R (5 + Z.of_nat a * 2) (world st);
                  log := log st ++ [EvSleep (5 + Z.of_nat a * 2)] |},
          [EvSleep (5 + Z.of_nat a * 2)].
        split; [|split; [|split; [reflexivity|]]].
        -- reflexivity.
        -- auto.
        -- cbn [posts rotations sleeps]. split; [reflexivity|]. split; [lia|].
           split; [constructor; [lia | constructor]|].
           right. split; [reflexivity | exact H].
      * now apply (Hstay (Raise (HttpFailure (status_code r) (text r)))).
Qed.

(** Any run of the loop with [left] iterations to go: the tokens stay, the
    index stays in range, there are at most [left] POSTs and [left]
    rotations, every POST is one of this call made with one of the tokens,
    every sleep lasts a second at least, and the events end as [call_ends]
    says. *)
Lemma attempt_loop_shape (q : string) (v : variables) (left : nat) :
  forall (a : nat) st (o : outcome data) (st' : state R),
  attempt_loop q v left a st = (o, st') ->
  tokens (tm st') = tokens (tm st)
  /\ (index (tm st) < List.length (tokens (tm st)) ->
      index (tm st') < List.length (tokens (tm st')))
  /\ exists evs,
       log st' = log st ++ evs
       /\ List.length (posts evs) <= left
       /\ rotations evs <= left
       /\ Forall (sent_by q v (tokens (tm st))) (posts evs)
       /\ Forall (fun s => (1 <= s)%Z) (sleeps evs)
       /\ call_ends o evs.
Proof.
  induction left as [|left IH]; intros a st o st' H.
  { injection H as <- <-. split; [reflexivity|]. split; [auto|].
    exists []. rewrite app_nil_r. cbn. repeat split; auto. }
  destruct (nth_error (tokens (tm st)) (index (tm st))) as [token|] eqn:Etok.
  2: { cbn [attempt_loop] in H. unfold bind at 1 in H.
       unfold call_auth_headers, auth_headers, current_token in H.
       rewrite Etok in H. injection H as <- <-.
       split; [reflexivity|]. split; [auto|].
       exists []. rewrite app_nil_r. cbn. repeat split; auto; lia. }
  destruct (requests_post R (world st) (post_request q v (bearer_headers token)))
    as [res w1] eqn:Epost.
  rewrite (attempt_loop_S _ _ _ _ _ _ _ _ _ Etok Epost) in H. cbv zeta in H.
  assert (Hsent : sent_by q v (tokens (tm st))
                    (post_request q v (bearer_headers token))).
  { exists token. split; [now apply nth_error_In with (index (tm st)) | reflexivity]. }
  destruct res as [r|e].
  2: { injection H as <- <-. cbn [tm log].
       split; [reflexivity|]. split; [auto|].
       eexists. split; [reflexivity|]. cbn.
       split; [lia|]. split; [lia|]. split; [now constructor|].
       split; constructor. }
  assert (Hne : tokens (tm st) <> [])
    by apply in_range_nonempty, (token_in_range _ _ Etok).
  apply handle_response_shape in H; [|exact Hne].
  cbn [tm log] in H.
  destruct H as (st2 & evs1 & Htoks & Hidx & Hlog & Hposts & Hrots & Hsleeps & Hend).
  pose proof (posts_nil_responses _ Hposts) as Hresp.
  destruct Hend as [[-> Hend] | [Hnone Hretry]].
  - split; [exact Htoks|]. split; [exact Hidx|].
    exists (EvPost (post_request q v (bearer_headers token)) (Return r) :: evs1).
    split; [rewrite Hlog, <- app_assoc; reflexivity|].
    cbn [posts rotations sleeps]. rewrite Hposts. cbn [List.length].
    split; [lia|]. split; [lia|]. split; [now constructor|].
    split; [exact Hsleeps|].
    destruct o as [d|e]; cbn [call_ends].
    + destruct Hend as [Hd ->].
      exists [], (post_request q v (bearer_headers token)), r.
      split; [reflexivity|]. split; [exact Hd | constructor].
    + cbn [responses]. rewrite Hresp. now constructor.
  - apply IH in Hretry.
    destruct Hretry as (Htoks' & Hidx' & evs2 & Hlog' & Hp2 & Hr2 & Hs2 & Hsl2 & Hend2).
    split; [congruence|]. split; [auto|].
    exists (EvPost (post_request q v (bearer_headers token)) (Return r)
            :: evs1 ++ evs2).
    split; [rewrite Hlog', Hlog, <- !app_assoc; reflexivity|].
    cbn [posts rotations sleeps].
    rewrite posts_app, rotations_app, sleeps_app, Hposts. cbn [app List.length].
    split; [lia|]. split; [lia|].
    split; [constructor; [exact Hsent | now rewrite <- Htoks]|].
    split; [now apply Forall_app|].
    destruct o as [d|e]; cbn [call_ends] in *.
    + destruct Hend2 as (evs0 & req & r' & -> & Hd & Hnone0).
      exists (EvPost (post_request q v (bearer_headers token)) (Return r)
              :: evs1 ++ evs0), req, r'.
      split; [cbn [app]; now rewrite <- app_assoc|]. split; [exact Hd|].
      cbn [responses]. rewrite responses_app, Hresp. now constructor.
    + cbn [responses]. rewrite responses_app, Hresp. now constructor.
Qed.

Lemma graphql_request_shape (q : string) (v : variables) st :
  tokens (tm (snd (graphql_request q v st))) = tokens (tm st)
  /\ (index (tm st) < List.length (tokens (tm st)) ->
      index (tm (snd (graphql_request q v st)))
      < List.length (tokens (tm (snd (graphql_request q v st)))))
  /\ exists evs,
       log (snd (graphql_request q v st)) = log st ++ evs
       /\ List.length (posts evs) <= Nat.max 5 (List.length (tokens (tm st)) * 3)
       /\ rotations evs <= Nat.max 5 (List.length (tokens (tm st)) * 3)
       /\ Forall (sent_by q v (tokens (tm st))) (posts evs)
       /\ Forall (fun s => (1 <= s)%Z) (sleeps evs)
       /\ call_ends (fst (graphql_request q v st)) evs.
Proof.
  destruct (graphql_request q v st) as [o st'] eqn:E. cbn [fst snd].
  unfold graphql_request, max_attempts_of in E.
  exact (attempt_loop_shape q v _ 0 st o st' E).
Qed.

(** X1: whatever the endpoint answers, one call makes at most
    [max(5, count * 3)] POSTs and advances the token manager at most that
    many times. *)
Theorem graphql_request_attempts_bounded (q : string) (v : variables) st :
  exists evs,
    log (snd (graphql_request q v st)) = log st ++ evs
    /\ List.length (posts evs) <= Nat.max 5 (List.length (tokens (tm st)) * 3)
    /\ rotations evs <= Nat.max 5 (List.length (tokens (tm st)) * 3).
Proof.
  destruct (graphql_request_shape q v st)
    as (_ & _ & evs & Hlog & Hp & Hr & _).
  exists evs. now repeat split.
Qed.

(** X2: whatever the endpoint answers and however the call ends, it leaves
    the list of tokens as it was and an index that was in range in range,
    so the next call finds a current token. *)
Theorem graphql_request_keeps_tokens (q : string) (v : variables) st :
  tokens (tm (snd (graphql_request q v st))) = tokens (tm st)
  /\ (index (tm st) < List.length (tokens (tm st)) ->
      exists token,
        current_token (tm (snd (graphql_request q v st))) = Return token
        /\ In token (tokens (tm st))).
Proof.
  destruct (graphql_request_shape q v st) as (Htoks & Hidx & _).
  split; [exact Htoks|]. intros Hi. specialize (Hidx Hi).
  unfold current_token.
  destruct (nth_error (tokens (tm (snd (graphql_request q v st))))
              (index (tm (snd (graphql_request q v st))))) as [token|] eqn:E.
  - exists token. split; [reflexivity|]. rewrite <- Htoks.
    now apply nth_error_In with (index (tm (snd (graphql_request q v st)))).
  - apply nth_error_None in E. lia.
Qed.

(** X3: every POST of a call goes to the GraphQL URL with the query and the
    variables of the call and a timeout of 120 seconds, and carries the
    bearer headers of one of the manager's tokens. *)
Theorem graphql_request_posts_well_formed (q : string) (v : variables) st :
  exists evs,
    log (snd (graphql_request q v st)) = log st ++ evs
    /\ Forall (fun req =>
                 req_url req = GITHUB_GRAPHQL_URL
                 /\ req_query req = q
                 /\ req_variables req = v
                 /\ req_timeout req = 120%Z
                 /\ exists token,
                      In token (tokens (tm st))
                      /\ req_headers req
                         = [("Authorization", String.append "Bearer " token);
                            ("Content-Type", "application/json")])
         (posts evs).
Proof.
  destruct (graphql_request_shape q v st)
    as (_ & _ & evs & Hlog & _ & _ & Hsent & _).
  exists evs. split; [exact Hlog|].
  eapply Forall_impl; [|exact Hsent].
  intros req (token & Hin & ->). cbn. repeat split. now exists token.
Qed.

(** X4: no call ever sleeps for less than a second: the backoff of a
    transient error and the wait for the rate-limit reset are both at least
    1, whatever the clock and the reset header say. *)
Theorem graphql_request_sleeps_positive (q : string) (v : variables) st :
  exists evs,
    log (snd (graphql_request q v st)) = log st ++ evs
    /\ Forall (fun seconds => (1 <= seconds)%Z) (sleeps evs).
Proof.
  destruct (graphql_request_shape q v st)
    as (_ & _ & evs & Hlog & _ & _ & _ & Hsl & _).
  exists evs. now split.
Qed.

(** X5: a status that is neither 200, nor 403 or 429, nor one of the four
    transient ones, with a body that does not mention the rate limit, ends
    the call at once with the HTTP error carrying the status and the body:
    one POST, no rotation, no sleep.  This holds at every iteration. *)
Theorem other_status_fails_at_once (q : string) (v : variables) st
  (token : string) (r : response) (w' : World R) :
  nth_error (tokens (tm st)) (index (tm st)) = Some token ->
  requests_post R (world st) (post_request q v (bearer_headers token))
  = (Return r, w') ->
  ~ In (status_code r) [200; 403; 429; 500; 502; 503; 504]%Z ->
  mentions_rate_limit (text r) = false ->
  let st' :=
    {| tm := tm st; world := w';
       log := log st
              ++ [EvPost (post_request q v (bearer_headers token)) (Return r)] |} in
  (forall left a,
      attempt_loop q v (S left) a st
      = (Raise (HttpFailure (status_code r) (text r)), st'))
  /\ graphql_request q v st
     = (Raise (HttpFailure (status_code r) (text r)), st').
Proof.
  intros Htok Hpost Hs Hm st'.
  assert (Hloop : forall left a,
             attempt_loop q v (S left) a st
             = (Raise (HttpFailure (status_code r) (text r)), st')).
  { intros left a. rewrite (attempt_loop_S _ _ _ _ _ _ _ _ _ Htok Hpost). cbv zeta.
    unfold handle_response. rewrite Hm. cbn [In] in Hs.
    repeat match goal with
           | |- context [(status_code r =? ?k)%Z] =>
               replace (status_code r =? k)%Z with false
                 by (symmetry; apply Z.eqb_neq; intros E; apply Hs; rewrite E; tauto)
           end.
    reflexivity. }
  split; [exact Hloop|].
  unfold graphql_request, max_attempts_of.
  destruct (Nat.max 5 (List.length (tokens (tm st)) * 3)) as [|left] eqn:E; [lia|].
  apply Hloop.
Qed.

(** X6: an HTTP 200 whose JSON object has neither ["errors"] nor ["data"]
    ends the call with [KeyError("data")] after one POST; when the remaining
    quota is low (or its header absent) the token manager has already been
    advanced by then. *)
Theorem missing_data_key_raises (q : string) (v : variables) st
  (token : string) (r : response) (p : payload) (w' : World R) :
  nth_error (tokens (tm st)) (index (tm st)) = Some token ->
  requests_post R (world st) (post_request q v (bearer_headers token))
  = (Return r, w') ->
  status_code r = 200%Z -> json r = Some p ->
  errors p = None -> payload_data p = None ->
  graphql_request q v st
  = (Raise (KeyError "data"),
     {| tm := if low_remaining r
              then {| tokens := tokens (tm st);
                      index := (index (tm st) + 1) mod List.length (tokens (tm st)) |}
              else tm st;
        world := w';
        log := log st
               ++ EvPost (post_request q v (bearer_headers token)) (Return r)
                  :: (if low_remaining r then [EvNextToken] else []) |}).
Proof.
  intros Htok Hpost Hs Hj He Hd.
  unfold graphql_request, max_attempts_of.
  destruct (Nat.max 5 (List.length (tokens (tm st)) * 3)) as [|left] eqn:E; [lia|].
  rewrite (attempt_loop_S _ _ _ _ _ _ _ _ _ Htok Hpost). cbv zeta.
  assert (Hne : tokens (tm st) <> [])
    by apply in_range_nonempty, (token_in_range _ _ Htok).
  unfold handle_response, low_remaining. rewrite Hs, Hj, He, Hd.
  cbn [Z.eqb Pos.eqb]. unfold bind.
  destruct (header_or 1 (x_ratelimit_remaining r) <=? 1)%Z.
  - rewrite call_next_token_rotated by exact Hne. cbn [tm world log].
    rewrite <- app_assoc. reflexivity.
  - reflexivity.
Qed.

(** All three forms of a rate-limited response take the same branch. *)
Lemma handle_rate_limited_any (retry : M R data) (a : nat) (r : response) st :
  rate_limited r ->
  handle_response retry a r st
  = bind (rotate_and_maybe_wait (header_or 0 (x_ratelimit_reset r)))
         (fun _ => retry) st.
Proof.
  intros [[Hs (p & errs & Hj & He & Hm)] | [Hs Hr]]; unfold handle_response.
  - now rewrite Hs, Hj, He, Hm.
  - replace (status_code r =? 200)%Z with false
      by (symmetry; now apply Z.eqb_neq).
    destruct Hr as [H | [H | H]]; rewrite H; [reflexivity | reflexivity |].
    now rewrite orb_true_r.
Qed.

(** The loop under an endpoint that only ever says the rate limit was hit:
    every iteration left is one POST and one rotation. *)
Lemma rate_limited_loop (q : string) (v : variables) :
  (forall w req, exists r,
      fst (requests_post R w req) = Return r /\ rate_limited r) ->
  forall (left a : nat) st (token : string),
  nth_error (tokens (tm st)) (index (tm st)) = Some token ->
  exists (st' : state R) (evs : list event),
    attempt_loop q v left a st = (Raise AttemptsExhausted, st')
    /\ tokens (tm st') = tokens (tm st)
    /\ index (tm st')
       = (index (tm st) + left) mod List.length (tokens (tm st))
    /\ log st' = log st ++ evs
    /\ List.length (posts evs) = left
    /\ rotations evs = left
    /\ (Forall (fun r => (header_or 0 (x_ratelimit_reset r) <= 0)%Z)
          (responses evs) ->
        sleeps evs = []).
Proof.
  intros Hall. induction left as [|left IH]; intros a st token Htok.
  - exists st, []. cbn. rewrite app_nil_r, Nat.add_0_r.
    rewrite Nat.mod_small by exact (token_in_range _ _ Htok). now repeat split.
  - destruct (requests_post R (world st) (post_request q v (bearer_headers token)))
      as [res w1] eqn:Epost.
    destruct (Hall (world st) (post_request q v (bearer_headers token)))
      as (r & Hres & Hrl).
    rewrite Epost in Hres. cbn [fst] in Hres. subst res.
    rewrite (attempt_loop_S _ _ _ _ _ _ _ _ _ Htok Epost). cbv zeta.
    rewrite (handle_rate_limited_any _ _ _ _ Hrl).
    match goal with |- context [bind _ _ ?s] => set (st1 := s) end.
    assert (Hne : tokens (tm st) <> [])
      by apply in_range_nonempty, (token_in_range _ _ Htok).
    destruct (rotate_and_maybe_wait_spec R (header_or 0 (x_ratelimit_reset r)) st1 Hne)
      as (st2 & Hrun & Htm & _ & evs1 & Hlog & Hposts & Hrots & Hsleeps).
    unfold bind. rewrite Hrun.
    destruct (rotated_token (tm st) Hne) as [token2 Htok2].
    cbn [st1 tm] in Htm. rewrite <- Htm in Htok2.
    destruct (IH (a + 1) st2 token2 Htok2)
      as (st' & evs2 & Hrun2 & Htoks2 & Hidx2 & Hlog2 & Hp2 & Hr2 & Hs2).
    exists st',
      (EvPost (post_request q v (bearer_headers token)) (Return r)
       :: EvNextToken :: evs1 ++ evs2).
    split; [exact Hrun2|]. rewrite Htm in Htoks2, Hidx2. cbn [rotated tokens index] in Htoks2, Hidx2.
    split; [exact Htoks2|].
    split; [rewrite Hidx2, Nat.Div0.add_mod_idemp_l; f_equal; lia|].
    split; [rewrite Hlog2, Hlog; subst st1; cbn [log]; rewrite <- !app_assoc; reflexivity|].
    cbn [posts rotations sleeps responses].
    rewrite posts_app, rotations_app, sleeps_app, responses_app, Hposts, Hrots.
    rewrite (posts_nil_responses _ Hposts). cbn [app List.length].
    split; [now rewrite Hp2|]. split; [now rewrite Hr2|].
    intros Hno. inversion Hno as [|r0 rs Hr0 Hrest]; subst.
    rewrite (Hs2 Hrest), app_nil_r, Hsleeps.
    replace (0 <? header_or 0 (x_ratelimit_reset r))%Z with false
      by (symmetry; apply Z.ltb_ge; exact Hr0).
    now rewrite andb_false_r.
Qed.

(** X7: when every answer says the rate limit was hit (an HTTP 200 whose
    errors mention it, a 403 or 429, or another non-200 whose body mentions
    it), the call raises the exhausted-attempts error after exactly
    [max(5, count * 3)] POSTs with one rotation after each, so that the
    index ends [max(5, count * 3)] places further round the tokens; and when
    no answer reports a reset time, the call never sleeps at all. *)
Theorem rate_limited_exhausts_attempts (q : string) (v : variables) st
  (token : string) :
  nth_error (tokens (tm st)) (index (tm st)) = Some token ->
  (forall w req, exists r,
      fst (requests_post R w req) = Return r /\ rate_limited r) ->
  exists (st' : state R) (evs : list event),
    graphql_request q v st = (Raise AttemptsExhausted, st')
    /\ tokens (tm st') = tokens (tm st)
    /\ index (tm st')
       = (index (tm st) + Nat.max 5 (List.length (tokens (tm st)) * 3))
         mod List.length (tokens (tm st))
    /\ log st' = log st ++ evs
    /\ List.length (posts evs) = Nat.max 5 (List.length (tokens (tm st)) * 3)
    /\ rotations evs = Nat.max 5 (List.length (tokens (tm st)) * 3)
    /\ (Forall (fun r => (header_or 0 (x_ratelimit_reset r) <= 0)%Z)
          (responses evs) ->
        sleeps evs = []).
Proof.
  intros Htok Hall. unfold graphql_request, max_attempts_of.
  exact (rate_limited_loop q v Hall _ 0 st token Htok).
Qed.

End RequestShape.

(** ** What any run of the pagination loop looks like *)

Lemma cursor_after_app (evs1 evs2 : list event) :
  forall cursor,
  cursor_after cursor (evs1 ++ evs2) = cursor_after (cursor_after cursor evs1) evs2.
Proof.
  induction evs1 as [|[req [r|e]|s|] evs1 IH]; intros cursor; cbn; auto.
Qed.

Lemma cursors_chain_app (evs1 evs2 : list event) :
  forall cursor,
  cursors_chain cursor (evs1 ++ evs2)
  <-> cursors_chain cursor evs1 /\ cursors_chain (cursor_after cursor evs1) evs2.
Proof.
  induction evs1 as [|[req [r|e]|s|] evs1 IH]; intros cursor; cbn;
    rewrite ?IH; tauto.
Qed.

(** Events without a successful response leave the cursor alone. *)
Lemma cursor_kept (evs : list event) (cursor : option string) :
  Forall (fun req => after (req_variables req) = cursor) (posts evs) ->
  Forall (fun r => success_data r = None) (responses evs) ->
  cursors_chain cursor evs /\ cursor_after cursor evs = cursor.
Proof.
  induction evs as [|[req [r|e]|s|] evs IH]; cbn; intros Hp Hr; auto.
  - inversion Hp as [|? ? Hreq Hp']; inversion Hr as [|? ? Hnone Hr']; subst.
    rewrite Hnone. destruct (IH Hp' Hr') as [Hc Ha]. now repeat split.
  - inversion Hp as [|? ? Hreq Hp']; subst.
    destruct (IH Hp' Hr) as [Hc Ha]. now repeat split.
Qed.

Lemma collected_app (evs1 evs2 : list event) :
  collected (evs1 ++ evs2) = collected evs1 ++ collected evs2.
Proof. unfold collected. now rewrite responses_app, map_app, concat_app. Qed.

Lemma collected_none (evs : list event) :
  Forall (fun r => success_data r = None) (responses evs) ->
  collected evs = [].
Proof.
  unfold collected. induction (responses evs) as [|r rs IH]; intros H; [reflexivity|].
  inversion H as [|? ? Hr Hrs]; subst. cbn. unfold response_records at 1.
  rewrite Hr. now apply IH.
Qed.

Section PaginationShape.

Variable R : Runtime.
Variable PAGE_SIZE : Z.
Implicit Types (st : state R).

(** One call as the pagination loop sees it: what it adds to the records and
    what it does to the cursor. *)
Lemma graphql_request_page (q : string) (v : variables) st
  (o : outcome data) (st' : state R) :
  graphql_request q v st = (o, st') ->
  tokens (tm st') = tokens (tm st)
  /\ (index (tm st) < List.length (tokens (tm st)) ->
      index (tm st') < List.length (tokens (tm st')))
  /\ exists evs,
       log st' = log st ++ evs
       /\ Forall (sent_by q v (tokens (tm st))) (posts evs)
       /\ Forall (fun s => (1 <= s)%Z) (sleeps evs)
       /\ cursors_chain (after v) evs
       /\ match o with
          | Return d =>
              collected evs = non_null (nodes (search d))
              /\ cursor_after (after v) evs = end_cursor (search d)
          | Raise _ => True
          end.
Proof.
  intros E. pose proof (graphql_request_shape R q v st) as H.
  rewrite E in H. cbn [fst snd] in H.
  destruct H as (Htoks & Hidx & evs & Hlog & _ & _ & Hsent & Hsl & Hend).
  split; [exact Htoks|]. split; [exact Hidx|].
  exists evs. split; [exact Hlog|]. split; [exact Hsent|]. split; [exact Hsl|].
  assert (Hafter : Forall (fun req => after (req_variables req) = after v) (posts evs)).
  { eapply Forall_impl; [|exact Hsent]. now intros req (token & _ & ->). }
  destruct o as [d|e]; cbn [call_ends] in Hend.
  - destruct Hend as (evs0 & req & r & -> & Hd & Hnone).
    rewrite posts_app in Hafter. apply Forall_app in Hafter.
    destruct Hafter as [Hafter0 Hafter1]. cbn [posts] in Hafter1.
    inversion Hafter1 as [|? ? Hreq _]; subst.
    destruct (cursor_kept evs0 (after v) Hafter0 Hnone) as [Hc0 Ha0].
    rewrite cursors_chain_app, collected_app, cursor_after_app, Ha0.
    rewrite (collected_none evs0 Hnone).
    unfold collected. cbn [app responses map List.concat cursors_chain cursor_after].
    rewrite responses_rotation. unfold response_records. rewrite Hd.
    cbn [map List.concat]. rewrite app_nil_r.
    split; [|split; [reflexivity|]]; destruct (low_remaining r); cbn; auto.
  - split; [|exact I]. exact (proj1 (cursor_kept evs (after v) Hafter Hend)).
Qed.

(** Any run of the loop that ends: the tokens stay, every sleep lasts a
    second at least, every POST asks [min(PAGE_SIZE, rem)] records for some
    [rem] still wanted, the cursors chain, and a returned list is what was
    there before plus what the successful pages handed over. *)
Lemma fetch_loop_shape (fuel : nat) :
  forall (all_repos : list repository) (cursor : option string)
         (remaining : Z) st (o : outcome (list repository)) (st' : state R),
  fetch_loop PAGE_SIZE fuel all_repos cursor remaining st = Some (o, st') ->
  tokens (tm st') = tokens (tm st)
  /\ (index (tm st) < List.length (tokens (tm st)) ->
      index (tm st') < List.length (tokens (tm st')))
  /\ exists evs,
       log st' = log st ++ evs
       /\ Forall (fun s => (1 <= s)%Z) (sleeps evs)
       /\ Forall (fun req =>
                    exists rem token,
                      (0 < rem <= remaining)%Z
                      /\ In token (tokens (tm st))
                      /\ req = post_request GRAPHQL_QUERY
                                 {| searchQuery := REPOSITORY_SEARCH_QUERY;
                                    first := Z.min PAGE_SIZE rem;
                                    after := after (req_variables req) |}
                                 (bearer_headers token))
            (posts evs)
       /\ cursors_chain cursor evs
       /\ match o with
          | Return repos => repos = all_repos ++ collected evs
          | Raise _ => True
          end.
Proof.
  induction fuel as [|fuel IH]; intros all_repos cursor remaining st o st' H.
  { destruct (Z_le_gt_dec remaining 0) as [Hr | Hr].
    - rewrite fetch_loop_done in H by exact Hr. injection H as <- <-.
      split; [reflexivity|]. split; [auto|]. exists [].
      rewrite !app_nil_r. cbn. now repeat split.
    - cbn [fetch_loop] in H.
      replace (remaining >? 0)%Z with true in H
        by (symmetry; apply Z.gtb_lt; lia).
      discriminate. }
  destruct (Z_le_gt_dec remaining 0) as [Hr | Hr].
  { rewrite fetch_loop_done in H by exact Hr. injection H as <- <-.
    split; [reflexivity|]. split; [auto|]. exists [].
    rewrite !app_nil_r. cbn. now repeat split. }
  rewrite fetch_loop_S in H by lia.
  match type of H with context [graphql_request ?q ?v st] =>
    destruct (graphql_request q v st) as [[d|e] st1] eqn:Ereq;
    apply graphql_request_page in Ereq;
    destruct Ereq as (Htoks & Hidx & evs & Hlog & Hsent & Hsl & Hchain & Hres)
  end.
  2: { injection H as <- <-.
       split; [exact Htoks|]. split; [exact Hidx|].
       exists evs. split; [exact Hlog|]. split; [exact Hsl|].
       split; [|split; [exact Hchain | exact I]].
       eapply Forall_impl; [|exact Hsent].
       intros req (token & Hin & ->). exists remaining, token.
       split; [lia|]. split; [exact Hin | reflexivity]. }
  cbn [after] in Hchain, Hres. destruct Hres as [Hcol Hcur].
  assert (Hposts : Forall (fun req =>
                     exists rem token,
                       (0 < rem <= remaining)%Z
                       /\ In token (tokens (tm st))
                       /\ req = post_request GRAPHQL_QUERY
                                  {| searchQuery := REPOSITORY_SEARCH_QUERY;
                                     first := Z.min PAGE_SIZE rem;
                                     after := after (req_variables req) |}
                                  (bearer_headers token))
                    (posts evs)).
  { eapply Forall_impl; [|exact Hsent].
    intros req (token & Hin & ->). exists remaining, token.
    split; [lia|]. split; [exact Hin | reflexivity]. }
  cbv zeta in H.
  destruct (negb (has_next_page (search d))
            || (remaining - Z.of_nat (List.length (non_null (nodes (search d))))
                <=? 0)%Z).
  - injection H as <- <-.
    split; [exact Htoks|]. split; [exact Hidx|].
    exists evs. rewrite Hcol. now repeat split.
  - apply IH in H. cbn [tm log] in H.
    destruct H as (Htoks2 & Hidx2 & evs2 & Hlog2 & Hsl2 & Hposts2 & Hchain2 & Hres2).
    split; [congruence|]. split; [auto|].
    exists (evs ++ EvSleep 1 :: evs2).
    split; [rewrite Hlog2, Hlog, <- !app_assoc; reflexivity|].
    rewrite sleeps_app, posts_app. cbn [sleeps posts].
    split; [apply Forall_app; split; [exact Hsl | constructor; [lia | exact Hsl2]]|].
    split.
    { apply Forall_app. split; [exact Hposts|].
      eapply Forall_impl; [|exact Hposts2].
      intros req (rem & token & Hrem & Hin & Hreq). exists rem, token.
      split; [lia|]. split; [now rewrite <- Htoks | exact Hreq]. }
    split.
    { apply cursors_chain_app. split; [exact Hchain|].
      rewrite Hcur. exact Hchain2. }
    destruct o as [repos|e]; [|exact I].
    rewrite Hres2, collected_app, Hcol. cbn [collected].
    unfold collected at 2. cbn [responses]. fold (collected evs2).
    now rewrite <- app_assoc.
Qed.

(** X8: whatever the endpoint answers, a list [fetch_top_repositories]
    returns is exactly the non-null records of the successful pages it
    received, in the order the pages came: nothing is dropped, nothing is
    taken twice, and a response that was retried adds nothing. *)
Theorem fetch_top_returns_collected (fuel : nat) (limit : Z) st :
  match fetch_top_repositories PAGE_SIZE fuel limit st with
  | Some (Return repos, st') =>
      exists evs, log st' = log st ++ evs /\ repos = collected evs
  | _ => True
  end.
Proof.
  unfold fetch_top_repositories. destruct (limit <=? 0)%Z.
  - exists []. now rewrite app_nil_r.
  - destruct (fetch_loop PAGE_SIZE fuel [] None limit st) as [[[repos|e] st']|] eqn:E;
      try exact I.
    apply fetch_loop_shape in E.
    destruct E as (_ & _ & evs & Hlog & _ & _ & _ & Hres).
    exists evs. now split.
Qed.

(** X9: whatever the endpoint answers and however the collection ends,
    every POST it made carries the search query and the GraphQL query of
    the module and asks for [min(PAGE_SIZE, rem)] records with
    [0 < rem <= limit]: never more than the page size, never more than the
    limit, and at least one when the page size is positive. *)
Theorem fetch_top_page_sizes (fuel : nat) (limit : Z) st :
  match fetch_top_repositories PAGE_SIZE fuel limit st with
  | Some (_, st') =>
      exists evs,
        log st' = log st ++ evs
        /\ Forall (fun req =>
                     req_query req = GRAPHQL_QUERY
                     /\ searchQuery (req_variables req) = REPOSITORY_SEARCH_QUERY
                     /\ (first (req_variables req) <= PAGE_SIZE)%Z
                     /\ (first (req_variables req) <= limit)%Z
                     /\ ((0 < PAGE_SIZE)%Z -> (0 < first (req_variables req))%Z))
             (posts evs)
  | None => True
  end.
Proof.
  unfold fetch_top_repositories. destruct (limit <=? 0)%Z.
  - exists []. rewrite app_nil_r. split; [reflexivity | constructor].
  - destruct (fetch_loop PAGE_SIZE fuel [] None limit st) as [[o st']|] eqn:E;
      [|exact I].
    apply fetch_loop_shape in E.
    destruct E as (_ & _ & evs & Hlog & _ & Hposts & _).
    exists evs. split; [exact Hlog|].
    eapply Forall_impl; [|exact Hposts].
    intros req (rem & token & Hrem & _ & ->). cbn. repeat split; lia.
Qed.

(** X10: whatever the endpoint answers, the cursors chain: the first POST
    asks with no cursor, and every later one asks for the page after the
    [endCursor] of the latest successful page (the retries of one page all
    ask with the same cursor). *)
Theorem fetch_top_cursors_chain (fuel : nat) (limit : Z) st :
  match fetch_top_repositories PAGE_SIZE fuel limit st with
  | Some (_, st') =>
      exists evs, log st' = log st ++ evs /\ cursors_chain None evs
  | None => True
  end.
Proof.
  unfold fetch_top_repositories. destruct (limit <=? 0)%Z.
  - exists []. rewrite app_nil_r. split; [reflexivity | exact I].
  - destruct (fetch_loop PAGE_SIZE fuel [] None limit st) as [[o st']|] eqn:E;
      [|exact I].
    apply fetch_loop_shape in E.
    destruct E as (_ & _ & evs & Hlog & _ & _ & Hchain & _).
    exists evs. now split.
Qed.

(** X12: when the first answer is a successful page that says there is no
    further page, or that brings as many records as the limit or more, the
    collection is over after that single request, without the courtesy
    sleep, and returns all the non-null records of the page: fewer than the
    limit when the source is exhausted, and more than the limit when the
    page holds more, for nothing is cut off. *)
Theorem fetch_top_single_page (fuel : nat) (limit : Z) st (token : string)
  (r : response) (d : data) (w' : World R) :
  (0 < limit)%Z ->
  nth_error (tokens (tm st)) (index (tm st)) = Some token ->
  requests_post R (world st)
    (post_request GRAPHQL_QUERY
       {| searchQuery := REPOSITORY_SEARCH_QUERY;
          first := Z.min PAGE_SIZE limit;
          after := None |}
       (bearer_headers token))
  = (Return r, w') ->
  is_success r d ->
  has_next_page (search d) = false
  \/ (limit <= Z.of_nat (List.length (non_null (nodes (search d)))))%Z ->
  exists st',
    fetch_top_repositories PAGE_SIZE (S fuel) limit st
    = Some (Return (non_null (nodes (search d))), st')
    /\ List.length (posts (log st')) = S (List.length (posts (log st)))
    /\ sleeps (log st') = sleeps (log st).
Proof.
  intros Hpos Htok Hpost Hok Hlast. unfold fetch_top_repositories.
  replace (limit <=? 0)%Z with false by (symmetry; apply Z.leb_gt; lia).
  rewrite fetch_loop_S by exact Hpos.
  unfold graphql_request, max_attempts_of.
  destruct (Nat.max 5 (List.length (tokens (tm st)) * 3)) as [|left] eqn:E; [lia|].
  rewrite (success_step _ _ _ _ _ _ _ _ _ _ Htok Hpost Hok). cbv zeta.
  replace (negb (has_next_page (search d))
           || (limit - Z.of_nat (List.length (non_null (nodes (search d))))
               <=? 0)%Z) with true.
  - eexists. split; [reflexivity|]. cbn [log].
    rewrite posts_app, sleeps_app, length_app. cbn [posts sleeps].
    rewrite posts_rotation, sleeps_rotation, app_nil_r. cbn. split; [lia | reflexivity].
  - symmetry. destruct Hlast as [Hn | Hl].
    + now rewrite Hn.
    + apply orb_true_iff. right. apply Z.leb_le. lia.
Qed.

End PaginationShape.

(** ** Trimming and splitting *)

Lemma lstrip_no_leading_space (s : string) : no_leading_space (lstrip s).
Proof.
  induction s as [|c t IH]; cbn; [exact I|].
  destruct (isspace c) eqn:E; [exact IH | exact E].
Qed.

Lemma lstrip_fixed (s : string) : no_leading_space s -> lstrip s = s.
Proof. destruct s as [|c t]; cbn; [reflexivity|]. now intros ->. Qed.

Lemma rstrip_no_leading_space (s : string) :
  no_leading_space s -> no_leading_space (rstrip s).
Proof. destruct s as [|c t]; cbn; [trivial|]. intros H. now rewrite H. Qed.

Lemma rstrip_idempotent (s : string) : rstrip (rstrip s) = rstrip s.
Proof.
  induction s as [|c t IH]; cbn; [reflexivity|].
  destruct (isspace c && is_empty (rstrip t)) eqn:E; [reflexivity|].
  cbn. now rewrite IH, E.
Qed.

Lemma strip_idempotent (s : string) : strip (strip s) = strip s.
Proof.
  unfold strip.
  rewrite (lstrip_fixed (rstrip (lstrip s)))
    by apply rstrip_no_leading_space, lstrip_no_leading_space.
  apply rstrip_idempotent.
Qed.

Lemma lstrip_has_char (c : ascii) (s : string) :
  has_char c s = false -> has_char c (lstrip s) = false.
Proof.
  induction s as [|c' t IH]; cbn; [trivial|].
  intros H. apply orb_false_iff in H. destruct H as [H1 H2].
  destruct (isspace c'); [now apply IH | cbn; now rewrite H1, H2].
Qed.

Lemma rstrip_has_char (c : ascii) (s : string) :
  has_char c s = false -> has_char c (rstrip s) = false.
Proof.
  induction s as [|c' t IH]; cbn; [trivial|].
  intros H. apply orb_false_iff in H. destruct H as [H1 H2].
  destruct (isspace c' && is_empty (rstrip t)); [reflexivity|].
  cbn. now rewrite H1, IH.
Qed.

Lemma strip_has_char (c : ascii) (s : string) :
  has_char c s = false -> has_char c (strip s) = false.
Proof. intros H. now apply rstrip_has_char, lstrip_has_char. Qed.

Lemma split_on_pieces (sep : ascii) (s : string) :
  split_on sep s <> []
  /\ Forall (fun piece => has_char sep piece = false) (split_on sep s).
Proof.
  induction s as [|c t [IHne IH]]; cbn.
  - split; [discriminate | now repeat constructor].
  - destruct (Ascii.eqb c sep) eqn:E.
    + split; [discriminate | now constructor].
    + destruct (split_on sep t) as [|piece pieces]; [congruence|].
      split; [discriminate|].
      inversion IH as [|? ? Hp Hps]; subst.
      constructor; [cbn; now rewrite E, Hp | exact Hps].
Qed.

Lemma split_on_whole (sep : ascii) (s : string) :
  has_char sep s = false -> split_on sep s = [s].
Proof.
  induction s as [|c t IH]; cbn; [reflexivity|].
  intros H. apply orb_false_iff in H. destruct H as [H1 H2].
  now rewrite H1, IH.
Qed.

Lemma split_on_append (sep : ascii) (s rest : string) :
  has_char sep s = false ->
  split_on sep (String.append s (String sep rest)) = s :: split_on sep rest.
Proof.
  induction s as [|c t IH]; cbn.
  - intros _. now rewrite Ascii.eqb_refl.
  - intros H. apply orb_false_iff in H. destruct H as [H1 H2].
    now rewrite H1, IH.
Qed.

Lemma split_on_concat (sep : ascii) (toks : list string) :
  toks <> [] ->
  Forall (fun t => has_char sep t = false) toks ->
  split_on sep (String.concat (String sep "") toks) = toks.
Proof.
  induction toks as [|t toks IH]; [congruence|].
  intros _ H. inversion H as [|? ? Ht Hts]; subst.
  destruct toks as [|t2 toks].
  - cbn. now apply split_on_whole.
  - cbn [String.concat]. cbn [String.append].
    rewrite split_on_append by exact Ht.
    f_equal. apply IH; [discriminate | exact Hts].
Qed.

Lemma clean_token_not_blank (t : string) :
  clean_token t -> is_empty (strip t) = false.
Proof.
  intros (Hne & Hs & _). rewrite Hs. destruct t; [congruence | reflexivity].
Qed.

Lemma clean_tokens_kept (toks : list string) :
  Forall clean_token toks ->
  map strip (filter (fun t => negb (is_empty (strip t))) toks) = toks.
Proof.
  induction 1 as [|t toks Ht Hts IH]; cbn; [reflexivity|].
  rewrite (clean_token_not_blank t Ht). cbn.
  destruct Ht as (_ & Hs & _). now rewrite Hs, IH.
Qed.

Lemma stripped_pieces_clean (pieces : list string) :
  Forall (fun piece => has_char "," piece = false) pieces ->
  Forall clean_token
    (map strip (filter (fun t => negb (is_empty (strip t))) pieces)).
Proof.
  induction 1 as [|piece pieces Hp Hps IH]; cbn; [constructor|].
  destruct (is_empty (strip piece)) eqn:E; cbn; [exact IH|].
  constructor; [|exact IH].
  split; [intros H0; now rewrite H0 in E|].
  split; [apply strip_idempotent | now apply strip_has_char].
Qed.

Lemma load_tokens_clean_helper (GITHUB_TOKENS : option string) :
  Forall clean_token (load_tokens GITHUB_TOKENS)
  /\ (strip (getenv GITHUB_TOKENS "") = "" -> load_tokens GITHUB_TOKENS = []).
Proof.
  unfold load_tokens. split.
  - destruct (is_empty (strip (getenv GITHUB_TOKENS ""))); [constructor|].
    apply stripped_pieces_clean, split_on_pieces.
  - now intros ->.
Qed.

(** X13: every token [_load_tokens] returns is non-empty, has no leading
    or trailing whitespace and contains no comma, whatever the value of
    GITHUB_TOKENS; an unset or blank variable gives no token. *)
Theorem load_tokens_clean (GITHUB_TOKENS : option string) :
  Forall (fun t => t <> "" /\ strip t = t /\ has_char "," t = false)
    (load_tokens GITHUB_TOKENS)
  /\ (strip (getenv GITHUB_TOKENS "") = "" -> load_tokens GITHUB_TOKENS = []).
Proof. exact (load_tokens_clean_helper GITHUB_TOKENS). Qed.

(** X14: tokens written one after the other with commas in between are
    read back as they were, when each is non-empty, trimmed and free of
    commas. *)
Theorem load_tokens_of_joined (toks : list string) :
  Forall clean_token toks ->
  load_tokens (Some (String.concat "," toks)) = toks.
Proof.
  intros H. unfold load_tokens, getenv.
  destruct toks as [|t toks]; [reflexivity|].
  assert (Hsplit : split_on "," (String.concat "," (t :: toks)) = t :: toks).
  { apply split_on_concat; [discriminate|].
    eapply Forall_impl; [|exact H]. now intros ? (_ & _ & ?). }
  assert (Hnb : is_empty (strip (String.concat "," (t :: toks))) = false).
  { inversion H as [|? ? Ht _]; subst.
    pose proof (clean_token_not_blank t Ht) as Hb.
    destruct Ht as (Hne & Hs & _). destruct t as [|c t']; [congruence|].
    assert (Hc : isspace c = false).
    { pose proof (lstrip_no_leading_space (String c t')) as Hl.
      unfold strip in Hs. cbn in Hl, Hs.
      destruct (isspace c) eqn:Ec; [|reflexivity].
      exfalso. clear Hb.
      assert (Hlen : forall u, String.length (rstrip u) <= String.length u).
      { induction u as [|x u IHu]; cbn; [lia|].
        destruct (isspace x && is_empty (rstrip u)); cbn; lia. }
      assert (Hlen2 : forall u, String.length (lstrip u) <= String.length u).
      { induction u as [|x u IHu]; cbn; [lia|].
        destruct (isspace x); cbn; lia. }
      pose proof (Hlen (lstrip t')) as H1. pose proof (Hlen2 t') as H2.
      rewrite Hs in H1. cbn in H1. lia. }
    destruct toks as [|t2 toks]; cbn [String.concat String.append];
      unfold strip; cbn [lstrip]; rewrite Hc; cbn [rstrip]; rewrite Hc;
      reflexivity. }
  rewrite Hnb, Hsplit. now apply clean_tokens_kept.
Qed.

Lemma cleaned_loaded_tokens (GITHUB_TOKENS : option string) :
  cleaned_tokens (load_tokens GITHUB_TOKENS) = load_tokens GITHUB_TOKENS.
Proof.
  unfold cleaned_tokens.
  pose proof (proj1 (load_tokens_clean_helper GITHUB_TOKENS)) as Hclean.
  induction Hclean as [|t toks Ht Hts IH]; cbn; [reflexivity|].
  rewrite (clean_token_not_blank t Ht).
  destruct Ht as (Hne & Hs & _).
  destruct t as [|c t']; [congruence|]. cbn [is_empty negb andb map].
  now rewrite Hs, IH.
Qed.

(** X15: [main] builds the token manager from the loaded tokens.  The
    constructor's own cleaning changes nothing on them: the manager holds
    exactly the loaded tokens, with index 0, and the construction fails with
    the no-token error exactly when no token was loaded. *)
Theorem TokenManager_of_loaded_tokens (GITHUB_TOKENS : option string) :
  TokenManager_init (load_tokens GITHUB_TOKENS)
  = match load_tokens GITHUB_TOKENS with
    | [] => Raise NoTokens
    | _ :: _ => Return {| tokens := load_tokens GITHUB_TOKENS; index := 0 |}
    end.
Proof.
  unfold TokenManager_init. rewrite cleaned_loaded_tokens. reflexivity.
Qed.

(** X16: the tokens a manager is built with are non-empty and trimmed, and
    building a manager again from them changes nothing: the constructor's
    cleaning is idempotent. *)
Theorem cleaned_tokens_trimmed_once (toks : list string) :
  Forall (fun t => t <> "" /\ strip t = t) (cleaned_tokens toks)
  /\ cleaned_tokens (cleaned_tokens toks) = cleaned_tokens toks.
Proof.
  assert (H : Forall (fun t => t <> "" /\ strip t = t) (cleaned_tokens toks)).
  { unfold cleaned_tokens. induction toks as [|t toks IH]; cbn; [constructor|].
    destruct (is_empty t); cbn; [exact IH|].
    destruct (is_empty (strip t)) eqn:E; cbn; [exact IH|].
    constructor; [|exact IH].
    split; [intros H0; now rewrite H0 in E | apply strip_idempotent]. }
  split; [exact H|].
  unfold cleaned_tokens at 1.
  induction H as [|t l [Hne Hs] Hl IH]; cbn; [reflexivity|].
  destruct t as [|c t']; [congruence|]. cbn [is_empty negb andb].
  rewrite Hs. cbn [is_empty negb filter map]. now rewrite Hs, IH.
Qed.

(** ** More runs against the simulated endpoints *)

Lemma other_status_fails_at_once_witness :
  (forall left a,
      attempt_loop GRAPHQL_QUERY first_ten (S left) a
        (start always_404 ["ghp_a"; "ghp_b"])
      = (Raise (HttpFailure 404 "Not Found"),
         @Build_state (scripted always_404)
           {| tokens := ["ghp_a"; "ghp_b"]; index := 0 |}
           (1, 1700000000%Z)
           ([] ++ [EvPost (post_request GRAPHQL_QUERY first_ten
                             (bearer_headers "ghp_a"))
                     (Return (status_response 404 "Not Found"))])))
  /\ graphql_request GRAPHQL_QUERY first_ten (start always_404 ["ghp_a"; "ghp_b"])
     = (Raise (HttpFailure 404 "Not Found"),
        @Build_state (scripted always_404)
          {| tokens := ["ghp_a"; "ghp_b"]; index := 0 |}
          (1, 1700000000%Z)
          ([] ++ [EvPost (post_request GRAPHQL_QUERY first_ten
                            (bearer_headers "ghp_a"))
                    (Return (status_response 404 "Not Found"))])).
Proof.
  apply (other_status_fails_at_once (scripted always_404) GRAPHQL_QUERY first_ten
           (start always_404 ["ghp_a"; "ghp_b"]) "ghp_a"
           (status_response 404 "Not Found") (1, 1700000000%Z)).
  - reflexivity.
  - reflexivity.
  - cbn. intros H. repeat (destruct H as [H | H]; [discriminate|]). exact H.
  - reflexivity.
Defined.

Lemma missing_data_key_raises_witness :
  graphql_request GRAPHQL_QUERY first_ten (start (empty_object None) ["ghp_a"; "ghp_b"])
  = (Raise (KeyError "data"),
     @Build_state (scripted (empty_object None))
       {| tokens := ["ghp_a"; "ghp_b"]; index := 1 |}
       (1, 1700000000%Z)
       [EvPost (post_request GRAPHQL_QUERY first_ten (bearer_headers "ghp_a"))
          (empty_object None 0 (post_request GRAPHQL_QUERY first_ten
                                   (bearer_headers "ghp_a")));
        EvNextToken]).
Proof.
  exact (missing_data_key_raises (scripted (empty_object None)) GRAPHQL_QUERY
           first_ten (start (empty_object None) ["ghp_a"; "ghp_b"]) "ghp_a"
           {| status_code := 200;
              x_ratelimit_remaining := None;
              x_ratelimit_reset := None;
              text := "{}";
              json := Some {| errors := None; payload_data := None |} |}
           {| errors := None; payload_data := None |}
           (1, 1700000000%Z)
           eq_refl eq_refl eq_refl eq_refl eq_refl eq_refl).
Defined.

Lemma rate_limited_exhausts_attempts_witness :
  exists (st' : state (scripted always_429)) (evs : list event),
    graphql_request GRAPHQL_QUERY first_ten (start always_429 ["ghp_a"; "ghp_b"])
    = (Raise AttemptsExhausted, st')
    /\ tokens (tm st') = ["ghp_a"; "ghp_b"]
    /\ index (tm st') = (0 + Nat.max 5 (2 * 3)) mod 2
    /\ log st' = [] ++ evs
    /\ List.length (posts evs) = Nat.max 5 (2 * 3)
    /\ rotations evs = Nat.max 5 (2 * 3)
    /\ (Forall (fun r => (header_or 0 (x_ratelimit_reset r) <= 0)%Z)
          (responses evs) ->
        sleeps evs = []).
Proof.
  apply (rate_limited_exhausts_attempts (scripted always_429) GRAPHQL_QUERY
           first_ten (start always_429 ["ghp_a"; "ghp_b"]) "ghp_a").
  - reflexivity.
  - intros w req. eexists. split; [reflexivity|].
    right. split; [discriminate | right; left; reflexivity].
Defined.

(** Six 429 without a reset header: six attempts back to back, no sleep. *)
Example always_429_never_waits :
  let out := graphql_request GRAPHQL_QUERY first_ten
               (start always_429 ["ghp_a"; "ghp_b"]) in
  fst out = Raise AttemptsExhausted
  /\ List.length (posts (log (snd out))) = 6
  /\ rotations (log (snd out)) = 6
  /\ sleeps (log (snd out)) = []
  /\ world (snd out) = (6, 1700000000%Z).
Proof. vm_compute. now repeat split. Qed.

Lemma fetch_top_single_page_witness :
  exists st',
    fetch_top_repositories 10 1 100 (start last_page_of_two ["ghp_a"])
    = Some (Return (non_null (nodes (search (sample_page 0 2 false)))), st')
    /\ List.length (posts (log st')) = 1
    /\ sleeps (log st') = [].
Proof.
  apply (fetch_top_single_page (scripted last_page_of_two) 10 0 100
           (start last_page_of_two ["ghp_a"]) "ghp_a"
           (success_response (Some 4999%Z) (sample_page 0 2 false))
           (sample_page 0 2 false) (1, 1700000000%Z)).
  - lia.
  - reflexivity.
  - reflexivity.
  - apply is_success_success_response.
  - left. reflexivity.
Defined.

(** A limit of 1 against a page that holds two records: both come back. *)
Example more_than_the_limit_comes_back :
  match fetch_top_repositories 10 1 1 (start last_page_of_two ["ghp_a"]) with
  | Some (Return repos, st') =>
      List.length repos = 2
      /\ map (fun req => first (req_variables req)) (posts (log st')) = [1%Z]
  | _ => False
  end.
Proof. vm_compute. now split. Qed.

(** Two pages that each need a second attempt: the retried responses add
    nothing, the retries repeat the cursor, and the second page is asked
    after the cursor of the first. *)
Example flaky_pages_run :
  match fetch_top_repositories 10 2 15 (start flaky_pages ["ghp_a"; "ghp_b"]) with
  | Some (Return repos, st') =>
      map status_code (responses (log st')) = [502; 200; 429; 200]%Z
      /\ repos = collected (log st')
      /\ map stargazerCount repos
         = map Z.of_nat (seq 100 10 ++ seq 300 5)
      /\ map (fun req => (first (req_variables req), after (req_variables req)))
           (posts (log st'))
         = [(10%Z, None); (10%Z, None);
            (5%Z, Some "cursor-1"); (5%Z, Some "cursor-1")]
      /\ sleeps (log st') = [7; 1]%Z
  | _ => False
  end.
Proof. vm_compute. now repeat split. Qed.

Lemma load_tokens_of_joined_witness :
  load_tokens (Some (String.concat "," ["ghp_a"; "ghp_b"; "ghp_c"]))
  = ["ghp_a"; "ghp_b"; "ghp_c"].
Proof.
  apply (load_tokens_of_joined ["ghp_a"; "ghp_b"; "ghp_c"]).
  repeat constructor; discriminate.
Defined.

Example load_tokens_examples :
  load_tokens None = []
  /\ load_tokens (Some "   ") = []
  /\ load_tokens (Some " , ,") = []
  /\ load_tokens (Some " ghp_a , ,ghp_b,") = ["ghp_a"; "ghp_b"]
  /\ TokenManager_init (load_tokens (Some ",")) = Raise NoTokens.
Proof. repeat split. Qed.


Example main_collect_examples :
  main_collect (R := scripted full_pages) 10 (Some " , ") 25 3 (0, 1700000000%Z)
  = Some (Raise NoTokens, ((0, 1700000000%Z), []))
  /\ match main_collect (R := scripted full_pages) 10 (Some " ghp_a ,ghp_b")
             25 3 (0, 1700000000%Z) with
     | Some (Return repos, (w', evs)) =>
         List.length repos = 25
         /\ map req_headers (posts evs)
            = [bearer_headers "ghp_a"; bearer_headers "ghp_a"; bearer_headers "ghp_a"]
     | _ => False
     end.
Proof. vm_compute. now repeat split. Qed.

(** * The metrics *)

From Stdlib Require Import Permutation Sorted.

Lemma list_sum_permutation (l1 l2 : list nat) :
  Permutation l1 l2 -> list_sum l1 = list_sum l2.
Proof. induction 1; unfold list_sum in *; cbn in *; lia. Qed.

Section MetricsFacts.

Import Metrics.

Variable L : Library.
Implicit Types (repos : list (normalized L)) (groups : list (string * list (normalized L))).

(** *** The counter *)

Lemma count_of_counter_add (key k : string) (counter : list (string * nat)) :
  count_of k (counter_add key counter)
  = if String.eqb key k then S (count_of k counter) else count_of k counter.
Proof.
  induction counter as [|[k0 n] t IH]; cbn.
  - destruct (String.eqb_spec key k); reflexivity.
  - destruct (String.eqb_spec k0 key) as [-> | Hne]; cbn.
    + destruct (String.eqb_spec key k); reflexivity.
    + rewrite IH. destruct (String.eqb_spec k0 k) as [-> | Hne2]; [|reflexivity].
      destruct (String.eqb_spec key k); [congruence | reflexivity].
Qed.

Lemma counter_add_keys (key k : string) (counter : list (string * nat)) :
  In k (map fst (counter_add key counter)) <-> k = key \/ In k (map fst counter).
Proof.
  induction counter as [|[k0 n] t IH]; cbn.
  - intuition congruence.
  - destruct (String.eqb_spec k0 key) as [-> | Hne]; cbn.
    + intuition congruence.
    + rewrite IH. tauto.
Qed.

Lemma counter_add_NoDup (key : string) (counter : list (string * nat)) :
  NoDup (map fst counter) -> NoDup (map fst (counter_add key counter)).
Proof.
  induction counter as [|[k0 n] t IH]; cbn; intros H.
  - constructor; [intros [] | constructor].
  - inversion H as [|? ? Hnin Hnd]; subst.
    destruct (String.eqb_spec k0 key) as [-> | Hne]; cbn.
    + now constructor.
    + constructor; [|now apply IH].
      rewrite counter_add_keys. intros [-> | Hin]; [congruence | contradiction].
Qed.

Lemma counter_add_sum (key : string) (counter : list (string * nat)) :
  list_sum (map snd (counter_add key counter)) = S (list_sum (map snd counter)).
Proof.
  unfold list_sum. induction counter as [|[k0 n] t IH]; cbn; [reflexivity|].
  destruct (String.eqb k0 key); cbn; [reflexivity | rewrite IH; lia].
Qed.

Lemma count_of_in (k : string) (counter : list (string * nat)) :
  In k (map fst counter) -> In (k, count_of k counter) counter.
Proof.
  induction counter as [|[k0 n] t IH]; cbn; [tauto|].
  destruct (String.eqb_spec k0 k) as [-> | Hne]; [now left|].
  intros [E | Hin]; [congruence | right; now apply IH].
Qed.

Lemma in_count_of (k : string) (n : nat) (counter : list (string * nat)) :
  NoDup (map fst counter) -> In (k, n) counter -> count_of k counter = n.
Proof.
  induction counter as [|[k0 n0] t IH]; cbn; [tauto|].
  intros Hnd Hin. inversion Hnd as [|? ? Hnin Hnd']; subst.
  destruct (String.eqb_spec k0 k) as [-> | Hne].
  - destruct Hin as [E | Hin]; [congruence|].
    exfalso. apply Hnin. now apply (in_map fst) in Hin.
  - destruct Hin as [E | Hin]; [congruence | now apply IH].
Qed.

(** *** The groups *)

Lemma sizes_group_add (key : string) (repo : normalized L) groups :
  sizes (group_add key repo groups) = counter_add key (sizes groups).
Proof.
  unfold sizes. induction groups as [|[k0 rs] t IH]; cbn; [reflexivity|].
  destruct (String.eqb k0 key); cbn.
  - now rewrite length_app, Nat.add_1_r.
  - now rewrite IH.
Qed.

Lemma sizes_fold repos :
  forall groups,
  sizes (fold_left (fun gs repo => group_add (primary_language repo) repo gs)
           repos groups)
  = fold_left (fun counter key => counter_add key counter)
      (map primary_language repos) (sizes groups).
Proof.
  induction repos as [|r repos IH]; intros groups; cbn [fold_left map];
    [reflexivity|].
  now rewrite IH, sizes_group_add.
Qed.

Lemma sizes_by_language repos :
  sizes (by_language repos) = Counter (map primary_language repos).
Proof. apply (sizes_fold repos []). Qed.

Lemma group_of_group_add (key k : string) (repo : normalized L) groups :
  group_of k (group_add key repo groups)
  = if String.eqb key k then group_of k groups ++ [repo] else group_of k groups.
Proof.
  induction groups as [|[k0 rs] t IH]; cbn.
  - destruct (String.eqb_spec key k); reflexivity.
  - destruct (String.eqb_spec k0 key) as [-> | Hne]; cbn.
    + destruct (String.eqb_spec key k); reflexivity.
    + rewrite IH. destruct (String.eqb_spec k0 k) as [-> | Hne2]; [|reflexivity].
      destruct (String.eqb_spec key k); [congruence | reflexivity].
Qed.

Lemma group_of_fold (k : string) repos :
  forall groups,
  group_of k (fold_left (fun gs repo => group_add (primary_language repo) repo gs)
                repos groups)
  = group_of k groups ++ of_language k repos.
Proof.
  induction repos as [|r repos IH]; intros groups; cbn.
  - now rewrite app_nil_r.
  - rewrite IH, group_of_group_add.
    destruct (String.eqb (primary_language r) k); [|reflexivity].
    now rewrite <- app_assoc.
Qed.

Lemma group_of_by_language (k : string) repos :
  group_of k (by_language repos) = of_language k repos.
Proof. apply (group_of_fold k repos []). Qed.

Lemma in_group_of (k : string) (rs : list (normalized L)) groups :
  NoDup (map fst groups) -> In (k, rs) groups -> group_of k groups = rs.
Proof.
  induction groups as [|[k0 rs0] t IH]; cbn; [tauto|].
  intros Hnd Hin. inversion Hnd as [|? ? Hnin Hnd']; subst.
  destruct (String.eqb_spec k0 k) as [-> | Hne].
  - destruct Hin as [E | Hin]; [congruence|].
    exfalso. apply Hnin. now apply (in_map fst) in Hin.
  - destruct Hin as [E | Hin]; [congruence | now apply IH].
Qed.

Lemma Counter_fold (keys : list string) :
  forall counter,
  let result := fold_left (fun c key => counter_add key c) keys counter in
  (NoDup (map fst counter) -> NoDup (map fst result))
  /\ list_sum (map snd result) = list_sum (map snd counter) + List.length keys
  /\ (forall k, In k (map fst result) <-> In k (map fst counter) \/ In k keys).
Proof.
  induction keys as [|key keys IH]; intros counter; cbv zeta;
    cbn [fold_left List.length In].
  - split; [auto|]. split; [lia | tauto].
  - destruct (IH (counter_add key counter)) as (Hnd & Hsum & Hin).
    split; [intros H; now apply Hnd, counter_add_NoDup|].
    split; [rewrite Hsum, counter_add_sum; lia|].
    intros k. rewrite Hin, counter_add_keys. intuition congruence.
Qed.

Lemma Counter_facts (keys : list string) :
  NoDup (map fst (Counter keys))
  /\ list_sum (map snd (Counter keys)) = List.length keys
  /\ (forall k, In k (map fst (Counter keys)) <-> In k keys).
Proof.
  destruct (Counter_fold keys []) as (Hnd & Hsum & Hin).
  split; [apply Hnd; constructor|]. split; [exact Hsum|].
  intros k. unfold Counter. rewrite Hin. cbn. tauto.
Qed.

Lemma by_language_keys repos :
  map fst (by_language repos) = map fst (Counter (map primary_language repos)).
Proof.
  rewrite <- sizes_by_language. unfold sizes. rewrite map_map. reflexivity.
Qed.

(** Every group is the repositories of its language, and has some. *)
Lemma by_language_groups repos (k : string) (rs : list (normalized L)) :
  In (k, rs) (by_language repos) -> rs = of_language k repos /\ rs <> [].
Proof.
  intros Hin.
  destruct (Counter_facts (map primary_language repos)) as (Hnd & _ & Hkeys).
  rewrite <- by_language_keys in Hnd, Hkeys.
  assert (E : rs = of_language k repos).
  { rewrite <- group_of_by_language. symmetry. now apply in_group_of. }
  split; [exact E|].
  assert (Hk : In k (map primary_language repos)).
  { apply Hkeys. now apply (in_map fst) in Hin. }
  apply in_map_iff in Hk. destruct Hk as (r & Hr & Hrin).
  rewrite E. intros Hnil.
  assert (Hf : In r (of_language k repos)).
  { apply filter_In. split; [exact Hrin|]. rewrite Hr. apply String.eqb_refl. }
  rewrite Hnil in Hf. exact Hf.
Qed.

Lemma count_of_sizes (k : string) groups :
  count_of k (sizes groups) = List.length (group_of k groups).
Proof.
  unfold sizes. induction groups as [|[k0 rs] t IH]; cbn; [reflexivity|].
  destruct (String.eqb k0 k); [reflexivity | exact IH].
Qed.

Lemma count_of_Counter (k : string) repos :
  count_of k (Counter (map primary_language repos))
  = List.length (of_language k repos).
Proof.
  now rewrite <- sizes_by_language, count_of_sizes, group_of_by_language.
Qed.

(** *** The rows *)

Lemma language_row_of_fields (k : string) (rs : list (normalized L))
  (row : language_row L) :
  language_row_of L k rs = Some row ->
  language row = k
  /\ repositories row = List.length rs
  /\ median L (int_values merged_pull_requests rs)
     = Some (median_merged_pull_requests row)
  /\ median L (int_values releases rs) = Some (median_releases row)
  /\ median L (int_values days_since_last_update rs)
     = Some (median_days_since_last_update row).
Proof.
  unfold language_row_of.
  destruct (median L (int_values merged_pull_requests rs)); [|discriminate].
  destruct (median L (int_values releases rs)); [|discriminate].
  destruct (median L (int_values days_since_last_update rs)); [|discriminate].
  intros H. injection H as <-. now repeat split.
Qed.

Lemma language_rows_counts groups (rows : list (language_row L)) :
  language_rows L groups = Some rows -> row_counts rows = sizes groups.
Proof.
  revert rows. induction groups as [|[k rs] t IH]; intros rows; cbn.
  - intros H. now injection H as <-.
  - destruct (language_row_of L k rs) as [row|] eqn:Erow; [|discriminate].
    destruct (language_rows L t) as [rows'|]; [|discriminate].
    intros H. injection H as <-.
    destruct (language_row_of_fields _ _ _ Erow) as (Hl & Hn & _).
    pose proof (IH rows' eq_refl) as IH'. unfold row_counts, sizes in *.
    cbn. now rewrite Hl, Hn, IH'.
Qed.

Lemma language_rows_in groups (rows : list (language_row L)) :
  language_rows L groups = Some rows ->
  forall row, In row rows ->
  exists k rs, In (k, rs) groups /\ language_row_of L k rs = Some row.
Proof.
  revert rows. induction groups as [|[k rs] t IH]; intros rows; cbn.
  - intros H. injection H as <-. intros row [].
  - destruct (language_row_of L k rs) as [row0|] eqn:Erow; [|discriminate].
    destruct (language_rows L t) as [rows'|]; [|discriminate].
    intros H. injection H as <-. intros row [<- | Hin].
    + exists k, rs. split; [now left | exact Erow].
    + destruct (IH rows' eq_refl row Hin) as (k' & rs' & Hin' & Hrow).
      exists k', rs'. split; [now right | exact Hrow].
Qed.

Lemma language_rows_total groups :
  (forall values, values <> [] -> median L values <> None) ->
  Forall (fun g => snd g <> []) groups ->
  exists rows, language_rows L groups = Some rows.
Proof.
  intros Hmed. induction 1 as [|[k rs] t Hrs Ht IH]; cbn; [eauto|].
  cbn in Hrs. destruct IH as [rows ->].
  assert (Hv : forall f, exists m, median L (int_values f rs) = Some m).
  { intros f. destruct (median L (int_values f rs)) as [m|] eqn:E; [eauto|].
    exfalso. apply (Hmed (int_values f rs)); [|exact E].
    destruct rs; [congruence | discriminate]. }
  unfold language_row_of.
  destruct (Hv merged_pull_requests) as [m1 ->].
  destruct (Hv releases) as [m2 ->].
  destruct (Hv days_since_last_update) as [m3 ->].
  eauto.
Qed.

(** *** The sort *)

Lemma insert_row_perm (row : language_row L) (l : list (language_row L)) :
  Permutation (insert_row row l) (row :: l).
Proof.
  induction l as [|y t IH]; cbn; [reflexivity|].
  destruct (repositories y <=? repositories row)%nat; [reflexivity|].
  rewrite IH. apply perm_swap.
Qed.

Lemma sort_rows_perm (l : list (language_row L)) : Permutation (sort_rows l) l.
Proof.
  induction l as [|x l IH]; cbn; [reflexivity|].
  rewrite insert_row_perm. now constructor.
Qed.

Lemma insert_row_sorted (row : language_row L) (l : list (language_row L)) :
  StronglySorted (fun a b => repositories b <= repositories a) l ->
  StronglySorted (fun a b => repositories b <= repositories a) (insert_row row l).
Proof.
  induction 1 as [|y t Hs IH Hy]; cbn.
  - constructor; constructor.
  - destruct (repositories y <=? repositories row)%nat eqn:E.
    + apply Nat.leb_le in E. constructor; [now constructor|].
      constructor; [exact E|].
      eapply Forall_impl; [|exact Hy]. cbn. intros; lia.
    + apply Nat.leb_gt in E. constructor; [exact IH|].
      eapply Permutation_Forall; [symmetry; apply insert_row_perm|].
      constructor; [lia | exact Hy].
Qed.

Lemma sort_rows_sorted (l : list (language_row L)) :
  StronglySorted (fun a b => repositories b <= repositories a) (sort_rows l).
Proof.
  induction l as [|x l IH]; cbn; [constructor | now apply insert_row_sorted].
Qed.

(** Rows of equal count keep their order. *)
Lemma insert_row_stable (n : nat) (row : language_row L)
  (l : list (language_row L)) :
  filter (fun r => (repositories r =? n)%nat) (insert_row row l)
  = filter (fun r => (repositories r =? n)%nat) (row :: l).
Proof.
  induction l as [|y t IH]; [reflexivity|]. cbn [insert_row].
  destruct (repositories y <=? repositories row)%nat eqn:E; [reflexivity|].
  apply Nat.leb_gt in E. cbn [filter] in *. rewrite IH.
  destruct (repositories row =? n)%nat eqn:Er; [|reflexivity].
  apply Nat.eqb_eq in Er.
  replace (repositories y =? n)%nat with false
    by (symmetry; apply Nat.eqb_neq; lia).
  reflexivity.
Qed.

Lemma sort_rows_stable (n : nat) (l : list (language_row L)) :
  filter (fun r => (repositories r =? n)%nat) (sort_rows l)
  = filter (fun r => (repositories r =? n)%nat) l.
Proof.
  induction l as [|x l IH]; [reflexivity|]. cbn [sort_rows fold_right].
  rewrite insert_row_stable. cbn [filter]. fold (sort_rows l). now rewrite IH.
Qed.

(** *** The summary *)

Lemma median_or_none_value (values : list (number (float L)))
  (m : option (number (float L))) :
  median_or_none L values = Some m ->
  m = match values with [] => None | _ :: _ => median L values end.
Proof.
  unfold median_or_none. destruct values as [|x t].
  - intros H. now injection H as <-.
  - destruct (median L (x :: t)); [|discriminate]. intros H. now injection H as <-.
Qed.

Lemma median_or_none_total (values : list (number (float L))) :
  (forall values, values <> [] -> median L values <> None) ->
  exists m, median_or_none L values = Some m.
Proof.
  intros Hmed. unfold median_or_none. destruct values as [|x t]; [eauto|].
  destruct (median L (x :: t)) eqn:E; [eauto|].
  exfalso. now apply (Hmed (x :: t)).
Qed.

(** What a summary is made of. *)
Lemma summarize_metrics_parts repos (s : summary L) :
  summarize_metrics L repos = Some s ->
  exists rows,
    language_rows L (by_language repos) = Some rows
    /\ rq07_by_language s = sort_rows rows
    /\ rq05_language_count s = Counter (map primary_language repos)
    /\ total_repositories s = List.length repos
    /\ median_or_none L (int_values age_days repos) = Some (rq01_median_age_days s)
    /\ median_or_none L (int_values merged_pull_requests repos)
       = Some (rq02_median_accepted_prs s)
    /\ median_or_none L (int_values releases repos) = Some (rq03_median_releases s)
    /\ median_or_none L (int_values days_since_last_update repos)
       = Some (rq04_median_days_since_last_update s)
    /\ median_or_none L (issues_ratio_values repos)
       = Some (rq06_median_closed_issues_ratio s).
Proof.
  unfold summarize_metrics. cbv zeta.
  destruct (language_rows L (by_language repos)) as [rows|]; [|discriminate].
  destruct (median_or_none L (int_values age_days repos)); [|discriminate].
  destruct (median_or_none L (int_values merged_pull_requests repos)); [|discriminate].
  destruct (median_or_none L (int_values releases repos)); [|discriminate].
  destruct (median_or_none L (int_values days_since_last_update repos)); [|discriminate].
  destruct (median_or_none L (issues_ratio_values repos)); [|discriminate].
  intros H. injection H as <-. exists rows. now repeat split.
Qed.

Lemma median_or_none_none (values : list (number (float L))) :
  median_or_none L values = Some None <-> values = [].
Proof.
  unfold median_or_none. destruct values as [|x t]; [tauto|].
  destruct (median L (x :: t)); split; discriminate.
Qed.

Lemma issues_ratio_values_nil repos :
  issues_ratio_values repos = []
  <-> Forall (fun r => closed_issues_ratio r = None) repos.
Proof.
  induction repos as [|r t IH]; cbn; [split; [constructor | reflexivity]|].
  destruct (closed_issues_ratio r) eqn:E.
  - split; [discriminate|]. intros H. inversion H; congruence.
  - rewrite IH. split; [now constructor | intros H; now inversion H].
Qed.

Lemma filter_row_counts (n : nat) (rows : list (language_row L)) :
  filter (fun e => (snd e =? n)%nat) (row_counts rows)
  = row_counts (filter (fun r => (repositories r =? n)%nat) rows).
Proof.
  unfold row_counts. induction rows as [|row rows IH]; cbn; [reflexivity|].
  destruct (repositories row =? n)%nat; cbn; now rewrite IH.
Qed.


(** X19: [summarize_metrics] never fails, as long as the median of a
    non-empty list exists: the overall medians are guarded by an emptiness
    test, and every language group has at least one repository. *)
Theorem summarize_metrics_never_fails repos :
  (forall values, values <> [] -> median L values <> None) ->
  exists s, summarize_metrics L repos = Some s.
Proof.
  intros Hmed. unfold summarize_metrics. cbv zeta.
  destruct (language_rows_total (by_language repos) Hmed) as [rows ->].
  { apply Forall_forall. intros [k rs] Hin. cbn.
    now destruct (by_language_groups repos k rs Hin). }
  destruct (median_or_none_total (int_values age_days repos) Hmed) as [m1 ->].
  destruct (median_or_none_total (int_values merged_pull_requests repos) Hmed)
    as [m2 ->].
  destruct (median_or_none_total (int_values releases repos) Hmed) as [m3 ->].
  destruct (median_or_none_total (int_values days_since_last_update repos) Hmed)
    as [m4 ->].
  destruct (median_or_none_total (issues_ratio_values repos) Hmed) as [m6 ->].
  eauto.
Qed.

(** X20: in a summary, [total_repositories] is the number of
    repositories, and so is the sum of the counts of [rq05_language_count]
    and the sum of the [repositories] of [rq07_by_language]; each language
    comes once in either; and the counter holds [(language, n)] exactly for
    the languages that [n > 0] repositories have. *)
Theorem summarize_metrics_counts repos :
  match summarize_metrics L repos with
  | Some s =>
      total_repositories s = List.length repos
      /\ list_sum (map snd (rq05_language_count s)) = List.length repos
      /\ list_sum (map repositories (rq07_by_language s)) = List.length repos
      /\ NoDup (map fst (rq05_language_count s))
      /\ NoDup (map language (rq07_by_language s))
      /\ (forall lang n,
            In (lang, n) (rq05_language_count s)
            <-> n = List.length (of_language lang repos) /\ n <> 0)
  | None => True
  end.
Proof.
  destruct (summarize_metrics L repos) as [s|] eqn:E; [|exact I].
  apply summarize_metrics_parts in E.
  destruct E as (rows & Hrows & H07 & H05 & Htotal & _).
  destruct (Counter_facts (map primary_language repos)) as (Hnd & Hsum & Hkeys).
  pose proof (language_rows_counts _ _ Hrows) as Hcounts.
  rewrite sizes_by_language in Hcounts.
  assert (Hperm : Permutation (row_counts (rq07_by_language s))
                    (Counter (map primary_language repos))).
  { rewrite H07, <- Hcounts. unfold row_counts.
    apply Permutation_map, sort_rows_perm. }
  rewrite length_map in Hsum.
  split; [exact Htotal|]. rewrite H05.
  split; [exact Hsum|].
  split.
  { rewrite <- Hsum.
    replace (map repositories (rq07_by_language s))
      with (map snd (row_counts (rq07_by_language s)))
      by (unfold row_counts; rewrite map_map; reflexivity).
    apply list_sum_permutation, Permutation_map, Hperm. }
  split; [exact Hnd|].
  split.
  { replace (map language (rq07_by_language s))
      with (map fst (row_counts (rq07_by_language s)))
      by (unfold row_counts; rewrite map_map; reflexivity).
    eapply Permutation_NoDup; [symmetry; apply Permutation_map, Hperm | exact Hnd]. }
  intros lang n. split.
  - intros Hin. pose proof (in_count_of _ _ _ Hnd Hin) as Hc.
    rewrite count_of_Counter in Hc. split; [now symmetry|].
    apply (in_map fst) in Hin. cbn in Hin. apply Hkeys in Hin.
    apply in_map_iff in Hin. destruct Hin as (r & Hr & Hrin).
    assert (Hf : In r (of_language lang repos)).
    { apply filter_In. split; [exact Hrin|]. rewrite Hr. apply String.eqb_refl. }
    rewrite <- Hc. destruct (of_language lang repos); [contradiction | discriminate].
  - intros [-> Hn0]. rewrite <- count_of_Counter. apply count_of_in, Hkeys.
    destruct (of_language lang repos) as [|r rs] eqn:Ef; [contradiction|].
    assert (Hf : In r (of_language lang repos)) by (rewrite Ef; now left).
    apply filter_In in Hf. destruct Hf as [Hrin Hr].
    apply String.eqb_eq in Hr. apply in_map_iff. now exists r.
Qed.

(** X21: [rq07_by_language] is in descending order of the number of
    repositories; it has the languages and counts of [rq05_language_count];
    and languages with the same number of repositories come in the order of
    the counter, which is the order in which they first appear. *)
Theorem summarize_metrics_order repos :
  match summarize_metrics L repos with
  | Some s =>
      StronglySorted (fun a b => repositories b <= repositories a)
        (rq07_by_language s)
      /\ Permutation (row_counts (rq07_by_language s)) (rq05_language_count s)
      /\ (forall n,
            filter (fun e => (snd e =? n)%nat) (row_counts (rq07_by_language s))
            = filter (fun e => (snd e =? n)%nat) (rq05_language_count s))
  | None => True
  end.
Proof.
  destruct (summarize_metrics L repos) as [s|] eqn:E; [|exact I].
  apply summarize_metrics_parts in E.
  destruct E as (rows & Hrows & H07 & H05 & _).
  pose proof (language_rows_counts _ _ Hrows) as Hcounts.
  rewrite sizes_by_language in Hcounts.
  rewrite H07, H05, <- Hcounts.
  split; [apply sort_rows_sorted|].
  split; [unfold row_counts; apply Permutation_map, sort_rows_perm|].
  intros n. now rewrite !filter_row_counts, sort_rows_stable.
Qed.

(** X22: every row of [rq07_by_language] stands for the repositories of
    its language, of which there is at least one: [repositories] is their
    number, and the three medians are those of their merged pull requests,
    releases and days since the last update, taken in the order of the
    input. *)
Theorem summarize_metrics_rows repos :
  match summarize_metrics L repos with
  | Some s =>
      Forall (fun row =>
                let mine := of_language (language row) repos in
                mine <> []
                /\ repositories row = List.length mine
                /\ median L (int_values merged_pull_requests mine)
                   = Some (median_merged_pull_requests row)
                /\ median L (int_values releases mine)
                   = Some (median_releases row)
                /\ median L (int_values days_since_last_update mine)
                   = Some (median_days_since_last_update row))
        (rq07_by_language s)
  | None => True
  end.
Proof.
  destruct (summarize_metrics L repos) as [s|] eqn:E; [|exact I].
  apply summarize_metrics_parts in E.
  destruct E as (rows & Hrows & H07 & _).
  apply Forall_forall. intros row Hin. rewrite H07 in Hin.
  apply (Permutation_in _ (sort_rows_perm rows)) in Hin.
  destruct (language_rows_in _ _ Hrows row Hin) as (k & rs & Hg & Hrow).
  destruct (by_language_groups repos k rs Hg) as [-> Hne].
  destruct (language_row_of_fields _ _ _ Hrow) as (Hl & Hn & H1 & H2 & H3).
  cbv zeta. rewrite Hl. now repeat split.
Qed.

(** X23: the four overall medians of a summary are [None] exactly for an
    empty list of repositories, and the medians of all the values
    otherwise; the median of the closed-issues ratio skips the repositories
    without a ratio, and is [None] exactly when no repository has one. *)
Theorem summarize_metrics_medians repos :
  match summarize_metrics L repos with
  | Some s =>
      (rq01_median_age_days s = None <-> repos = [])
      /\ (rq02_median_accepted_prs s = None <-> repos = [])
      /\ (rq03_median_releases s = None <-> repos = [])
      /\ (rq04_median_days_since_last_update s = None <-> repos = [])
      /\ (rq06_median_closed_issues_ratio s = None
          <-> Forall (fun r => closed_issues_ratio r = None) repos)
      /\ (repos <> [] ->
          rq01_median_age_days s = median L (int_values age_days repos)
          /\ rq02_median_accepted_prs s
             = median L (int_values merged_pull_requests repos)
          /\ rq03_median_releases s = median L (int_values releases repos)
          /\ rq04_median_days_since_last_update s
             = median L (int_values days_since_last_update repos))
      /\ (issues_ratio_values repos <> [] ->
          rq06_median_closed_issues_ratio s
          = median L (issues_ratio_values repos))
  | None => True
  end.
Proof.
  destruct (summarize_metrics L repos) as [s|] eqn:E; [|exact I].
  apply summarize_metrics_parts in E.
  destruct E as (rows & _ & _ & _ & _ & H1 & H2 & H3 & H4 & H6).
  assert (Hnil : forall (f : normalized L -> Z) m,
             median_or_none L (int_values f repos) = Some m ->
             (m = None <-> repos = [])).
  { intros f m Hm. split.
    - intros ->. apply median_or_none_none in Hm.
      now apply map_eq_nil in Hm.
    - intros ->. apply median_or_none_value in Hm. exact Hm. }
  assert (Hval : forall (f : normalized L -> Z) m,
             median_or_none L (int_values f repos) = Some m ->
             repos <> [] -> m = median L (int_values f repos)).
  { intros f m Hm Hne. apply median_or_none_value in Hm.
    destruct repos; [congruence | exact Hm]. }
  split; [now apply (Hnil age_days)|].
  split; [now apply (Hnil merged_pull_requests)|].
  split; [now apply (Hnil releases)|].
  split; [now apply (Hnil days_since_last_update)|].
  split.
  { rewrite <- issues_ratio_values_nil. split.
    - intros Hn. rewrite Hn in H6. now apply median_or_none_none in H6.
    - intros Hn. apply median_or_none_value in H6. now rewrite Hn in H6. }
  split.
  { intros Hne. repeat split; now apply Hval. }
  intros Hne. apply median_or_none_value in H6.
  destruct (issues_ratio_values repos); [congruence | exact H6].
Qed.

End MetricsFacts.

(** ** The metrics run with the simulated library *)

Section MetricsRuns.

Import Metrics.


Lemma simulated_median_nonempty :
  forall values, values <> [] -> median simulated_library values <> None.
Proof.
  intros [|x t] H; [congruence|]. cbn [median simulated_library].
  unfold simulated_median.
  destruct (Nat.odd (List.length (fold_right insert_number [] (x :: t))));
    discriminate.
Qed.


Lemma summarize_metrics_never_fails_witness :
  exists s, summarize_metrics simulated_library sample_normalized = Some s.
Proof.
  exact (summarize_metrics_never_fails simulated_library sample_normalized
           simulated_median_nonempty).
Defined.

(** Eight repositories, normalized with their ages in days and their
    languages, "Unknown" standing for a null language and for an empty
    name; one whose creation timestamp is refused; and one whose creation
    timestamp has no time zone, so that it cannot be subtracted from a
    [now_utc] that has one. *)
Example normalize_all_run :
  map (fun n => (name_with_owner n, primary_language n, age_days n,
                 days_since_last_update n, closed_issues_ratio n))
    sample_normalized
  = [ ("a/one", "Python", 4722%Z, 1309%Z, Some (2%Z, 4%Z));
      ("b/two", "Go", 4722%Z, 1309%Z, None);
      ("c/three", "Python", 4722%Z, 1309%Z, Some (3%Z, 9%Z));
      ("d/four", "Unknown", 4722%Z, 1309%Z, Some (5%Z, 5%Z));
      ("e/five", "Unknown", 4722%Z, 1309%Z, Some (0%Z, 1%Z));
      ("f/six", "Go", 4722%Z, 1309%Z, Some (1%Z, 2%Z));
      ("g/seven", "Rust", 4722%Z, 1309%Z, Some (3%Z, 3%Z));
      ("h/eight", "Go", 4722%Z, 1309%Z, Some (4%Z, 8%Z)) ]
  /\ match normalize_repository simulated_library
             (sample_raw_created "yesterday") (1704067200%Z, true) with
     | None => True
     | Some _ => False
     end
  /\ iso_to_datetime simulated_library "2020-06-01T00:00:00"
     = Some (1590969600%Z, false)
  /\ match normalize_repository simulated_library
             (sample_raw_created "2020-06-01T00:00:00") (1704067200%Z, true) with
     | None => True
     | Some _ => False
     end
  /\ match normalize_repository simulated_library
             (sample_raw_created "2020-06-01T00:00:00Z") (1704067200%Z, true) with
     | None => False
     | Some n => age_days n = 1309%Z
     end.
Proof. vm_compute. repeat split. Qed.

(** The summary of the eight: Go moves before Python, and Python stays
    before Unknown. *)
Example summarize_metrics_run :
  match summarize_metrics simulated_library sample_normalized with
  | Some s =>
      total_repositories s = 8
      /\ rq05_language_count s
         = [("Python", 2); ("Go", 3); ("Unknown", 2); ("Rust", 1)]
      /\ row_counts (rq07_by_language s)
         = [("Go", 3); ("Python", 2); ("Unknown", 2); ("Rust", 1)]
      /\ map median_merged_pull_requests (rq07_by_language s)
         = [Int 60; Float (40%Z, 2%Z); Float (90%Z, 2%Z); Int 70]
      /\ rq02_median_accepted_prs s = Some (Float (90%Z, 2%Z))
  | None => False
  end
  /\ match summarize_metrics simulated_library [] with
     | Some s =>
         total_repositories s = 0
         /\ rq01_median_age_days s = None
         /\ rq06_median_closed_issues_ratio s = None
         /\ rq05_language_count s = []
         /\ row_counts (rq07_by_language s) = []
     | None => False
     end.
Proof. vm_compute. repeat split; reflexivity. Qed.

End MetricsRuns.
